(** * winston-pg-nest: the PostgreSQL transport

    A shallow embedding of [PostgresTransport] (constructor, [log], [query],
    [hydrateColumns]) together with the pieces of the JavaScript runtime and
    of the collaborating libraries (pg's pool and client, sql-ts' statement
    builder, the event emitter) that the transport drives.

    Conventions of the model:
    - JavaScript numbers are the integers [Z]: the request type declares
      [limit] and [page] as integer counts, and the integers meant are the
      ones a number holds exactly and prints in plain decimal;
    - strings are [string], one [ascii] per code unit;
    - a log record is an object: an association list from property names to
      values, in enumeration order;
    - a promise chain is a computation of the [Async] monad: it reads the
      answers of the database from an environment, threads the pool and the
      trace of calls made to the collaborators, and completes fulfilled or
      rejected. *)

From Stdlib Require Import ZArith List String Ascii Bool Lia Arith.
From Stdlib Require Import Decimal DecimalString DecimalFacts DecimalPos DecimalZ.
Import ListNotations.

#[local] Set Warnings "-register-all".
#[local] Open Scope list_scope.
#[local] Open Scope string_scope.

(** ** JavaScript values *)

(** An [Error] object, as pg rejects with: the properties the transport
    reads. *)
Record JsError : Type := mkError {
  err_message : string;
  err_stack : string
}.

Inductive value : Type :=
| VUndefined
| VNull
| VBool (b : bool)
| VNum (n : Z)
| VStr (s : string)
| VArr (items : list value)
| VObj (props : list (string * value))
| VError (e : JsError).

(** Property lookup on an object: the value of the first binding of [key],
    [undefined] when there is none. *)
Fixpoint lookup (key : string) (props : list (string * value)) : value :=
  match props with
  | [] => VUndefined
  | (k, v) :: rest => if String.eqb k key then v else lookup key rest
  end.

(** [a ?? b] *)
Definition nullish (a b : value) : value :=
  match a with
  | VUndefined | VNull => b
  | _ => a
  end.

(** Truthiness of an optional string and of an optional number, as [||],
    [?:] and [if] test them. *)
Definition truthy_string (o : option string) : bool :=
  match o with
  | Some (String _ _) => true
  | _ => false
  end.

Definition truthy_number (o : option Z) : bool :=
  match o with
  | Some n => negb (Z.eqb n 0)
  | None => false
  end.

(** [o || d] on an optional string and on an optional number. *)
Definition or_string (o : option string) (d : string) : string :=
  match o with
  | Some (String a s) => String a s
  | _ => d
  end.

Definition or_number (o : option Z) (d : Z) : Z :=
  match o with
  | Some n => if Z.eqb n 0 then d else n
  | None => d
  end.

(** [String.prototype.toLowerCase] on the ASCII range. *)
Definition lower_char (c : ascii) : ascii :=
  let n := nat_of_ascii c in
  if andb (Nat.leb 65 n) (Nat.leb n 90) then ascii_of_nat (n + 32) else c.

Fixpoint toLowerCase (s : string) : string :=
  match s with
  | EmptyString => EmptyString
  | String c rest => String (lower_char c) (toLowerCase rest)
  end.

Definition dquote : ascii := "034"%char.
Definition backslash : ascii := "092"%char.

(** ** JSON.stringify and a reader of JSON text *)

Module JSON.

Definition hex_digit (n : nat) : ascii :=
  if Nat.ltb n 10 then ascii_of_nat (48 + n) else ascii_of_nat (87 + n).

(** QuoteJSONString, one code unit: the two-character escapes of the
    standard's table, [\u00xx] for the other control characters, the
    character itself otherwise. *)
Definition escape_char (c : ascii) : string :=
  let n := nat_of_ascii c in
  if Nat.eqb n 8 then String backslash "b"
  else if Nat.eqb n 9 then String backslash "t"
  else if Nat.eqb n 10 then String backslash "n"
  else if Nat.eqb n 12 then String backslash "f"
  else if Nat.eqb n 13 then String backslash "r"
  else if Nat.eqb n 34 then String backslash (String dquote EmptyString)
  else if Nat.eqb n 92 then String backslash (String backslash EmptyString)
  else if Nat.ltb n 32 then
    String backslash
      (String "u" (String "0" (String "0"
        (String (hex_digit (n / 16)) (String (hex_digit (n mod 16)) EmptyString)))))
  else String c EmptyString.

Fixpoint escape (s : string) : string :=
  match s with
  | EmptyString => EmptyString
  | String c rest => escape_char c ++ escape rest
  end.

Definition QuoteJSONString (s : string) : string :=
  String dquote (escape s ++ String dquote EmptyString).

(** Number::toString on an integer that a number holds exactly: decimal
    digits, a minus sign for a negative one. *)
Definition number_to_string (n : Z) : string :=
  NilZero.string_of_int (Z.to_int n).

Fixpoint join_comma (parts : list string) : string :=
  match parts with
  | [] => EmptyString
  | [p] => p
  | p :: rest => p ++ "," ++ join_comma rest
  end.

(** SerializeJSONProperty: [None] is the [undefined] that JSON.stringify
    returns for [undefined]. An array element that serializes to
    [undefined] is written [null], an object member that does is left out.
    An [Error] has no enumerable property of its own. *)
Fixpoint stringify (v : value) : option string :=
  match v with
  | VUndefined => None
  | VNull => Some "null"
  | VBool b => Some (if b then "true" else "false")
  | VNum n => Some (number_to_string n)
  | VStr s => Some (QuoteJSONString s)
  | VArr items =>
      Some ("[" ++
            join_comma (map (fun x => match stringify x with
                                      | Some t => t
                                      | None => "null"
                                      end) items) ++ "]")
  | VObj props =>
      Some ("{" ++
            join_comma (flat_map (fun p => match stringify (snd p) with
                                           | Some t => [QuoteJSONString (fst p) ++ ":" ++ t]
                                           | None => []
                                           end) props) ++ "}")
  | VError _ => Some "{}"
  end.

(** The values JSON represents: null, booleans, numbers, strings, and
    arrays and objects of such. *)
Fixpoint serializable (v : value) : bool :=
  match v with
  | VUndefined => false
  | VNull | VBool _ | VNum _ | VStr _ => true
  | VArr items => forallb serializable items
  | VObj props => forallb (fun p => serializable (snd p)) props
  | VError _ => false
  end.

(** *** Reading JSON text

    A reader for the compact form of the JSON grammar (RFC 8259 without
    insignificant whitespace, numbers without fraction or exponent). *)

Definition is_digit (c : ascii) : bool :=
  let n := nat_of_ascii c in andb (Nat.leb 48 n) (Nat.leb n 57).

Definition is_control (c : ascii) : bool := Nat.ltb (nat_of_ascii c) 32.

Definition hex_value (c : ascii) : option nat :=
  let n := nat_of_ascii c in
  if andb (Nat.leb 48 n) (Nat.leb n 57) then Some (n - 48)
  else if andb (Nat.leb 97 n) (Nat.leb n 102) then Some (n - 87)
  else if andb (Nat.leb 65 n) (Nat.leb n 70) then Some (n - 55)
  else None.

(** The code unit of [\uh1h2h3h4], when it fits the strings of the model. *)
Definition hex4 (h1 h2 h3 h4 : ascii) : option ascii :=
  match hex_value h1, hex_value h2, hex_value h3, hex_value h4 with
  | Some 0, Some 0, Some c, Some d => Some (ascii_of_nat (16 * c + d))
  | _, _, _, _ => None
  end.

Definition unescape (c : ascii) : option ascii :=
  let n := nat_of_ascii c in
  if Nat.eqb n 34 then Some dquote
  else if Nat.eqb n 92 then Some backslash
  else if Nat.eqb n 47 then Some "/"%char
  else if Nat.eqb n 98 then Some (ascii_of_nat 8)
  else if Nat.eqb n 102 then Some (ascii_of_nat 12)
  else if Nat.eqb n 110 then Some (ascii_of_nat 10)
  else if Nat.eqb n 114 then Some (ascii_of_nat 13)
  else if Nat.eqb n 116 then Some (ascii_of_nat 9)
  else None.

Definition cons_char (c : ascii) (r : option (string * string)) : option (string * string) :=
  match r with
  | Some (s, rest) => Some (String c s, rest)
  | None => None
  end.

(** The characters of a string literal after its opening quote, up to and
    including the closing one. *)
Fixpoint parse_chars (s : string) : option (string * string) :=
  match s with
  | EmptyString => None
  | String c rest =>
      if Ascii.eqb c dquote then Some (EmptyString, rest)
      else if Ascii.eqb c backslash then
        match rest with
        | EmptyString => None
        | String e rest1 =>
            if Ascii.eqb e "u" then
              match rest1 with
              | String h1 (String h2 (String h3 (String h4 rest2))) =>
                  match hex4 h1 h2 h3 h4 with
                  | Some a => cons_char a (parse_chars rest2)
                  | None => None
                  end
              | _ => None
              end
            else
              match unescape e with
              | Some a => cons_char a (parse_chars rest1)
              | None => None
              end
        end
      else if is_control c then None
      else cons_char c (parse_chars rest)
  end.

(** The longest prefix of digits. *)
Fixpoint span_digits (s : string) : string * string :=
  match s with
  | EmptyString => (EmptyString, EmptyString)
  | String c rest =>
      if is_digit c then
        let (ds, rest') := span_digits rest in (String c ds, rest')
      else (EmptyString, s)
  end.

Definition uint_normal (u : uint) : bool :=
  if uint_eq_dec (unorm u) u then true else false.

(** [int = zero / ( digit1-9 *DIGIT )], after an optional minus sign. *)
Definition parse_digits (s : string) : option (Z * string) :=
  let (ds, rest) := span_digits s in
  match NilEmpty.uint_of_string ds with
  | Some u => if uint_normal u then Some (Z.of_uint u, rest) else None
  | None => None
  end.

Definition parse_number (s : string) : option (Z * string) :=
  match s with
  | String c rest =>
      if Ascii.eqb c "-" then
        match parse_digits rest with
        | Some (n, rest') => Some (Z.opp n, rest')
        | None => None
        end
      else parse_digits s
  | EmptyString => None
  end.

Fixpoint strip_prefix (p s : string) : option string :=
  match p with
  | EmptyString => Some s
  | String a p' =>
      match s with
      | String b s' => if Ascii.eqb a b then strip_prefix p' s' else None
      | EmptyString => None
      end
  end.

Fixpoint parse_value (fuel : nat) (s : string) : option (value * string) :=
  match fuel with
  | O => None
  | S fuel' =>
      match s with
      | EmptyString => None
      | String c rest =>
          if Ascii.eqb c "n" then
            option_map (fun r => (VNull, r)) (strip_prefix "ull" rest)
          else if Ascii.eqb c "t" then
            option_map (fun r => (VBool true, r)) (strip_prefix "rue" rest)
          else if Ascii.eqb c "f" then
            option_map (fun r => (VBool false, r)) (strip_prefix "alse" rest)
          else if Ascii.eqb c dquote then
            match parse_chars rest with
            | Some (str, rest') => Some (VStr str, rest')
            | None => None
            end
          else if Ascii.eqb c "[" then
            match strip_prefix "]" rest with
            | Some rest' => Some (VArr [], rest')
            | None =>
                match parse_elements fuel' rest with
                | Some (items, rest') => Some (VArr items, rest')
                | None => None
                end
            end
          else if Ascii.eqb c "{" then
            match strip_prefix "}" rest with
            | Some rest' => Some (VObj [], rest')
            | None =>
                match parse_members fuel' rest with
                | Some (props, rest') => Some (VObj props, rest')
                | None => None
                end
            end
          else
            match parse_number s with
            | Some (n, rest') => Some (VNum n, rest')
            | None => None
            end
      end
  end
with parse_elements (fuel : nat) (s : string) : option (list value * string) :=
  match fuel with
  | O => None
  | S fuel' =>
      match parse_value fuel' s with
      | Some (v, String c rest) =>
          if Ascii.eqb c "," then
            match parse_elements fuel' rest with
            | Some (vs, rest') => Some (v :: vs, rest')
            | None => None
            end
          else if Ascii.eqb c "]" then Some ([v], rest)
          else None
      | _ => None
      end
  end
with parse_members (fuel : nat) (s : string) : option (list (string * value) * string) :=
  match fuel with
  | O => None
  | S fuel' =>
      match strip_prefix (String dquote EmptyString) s with
      | Some s1 =>
          match parse_chars s1 with
          | Some (k, s2) =>
              match strip_prefix ":" s2 with
              | Some s3 =>
                  match parse_value fuel' s3 with
                  | Some (v, String c rest) =>
                      if Ascii.eqb c "," then
                        match parse_members fuel' rest with
                        | Some (ps, rest') => Some ((k, v) :: ps, rest')
                        | None => None
                        end
                      else if Ascii.eqb c "}" then Some ([(k, v)], rest)
                      else None
                  | _ => None
                  end
              | None => None
              end
          | None => None
          end
      | None => None
      end
  end.

(** JSON.parse on a whole text: the value it denotes, [None] when the text
    is not JSON. *)
Definition parse (text : string) : option value :=
  match parse_value (S (String.length text)) text with
  | Some (v, EmptyString) => Some v
  | _ => None
  end.

End JSON.

(** ** sql-ts: columns, tables, statements *)

(** Modelled from the spec: the type [PostgresColumnDefinition] of
    [./postgres-column-definition], which is the spec's ColumnDefinition
    [{ name, dataType, defaultValue? }]; the data type is the string the
    transport compares with ['JSON'], ['TIMESTAMP'], ['TIMESTAMPTZ'] and
    ['SERIAL'], an absent default is [undefined]. *)
Record PostgresColumnDefinition : Type := {
  def_name : string;
  def_dataType : string;
  def_defaultValue : value
}.

(** A column node of a defined table; [bound] is the value [column.value(v)]
    attaches for an insert. *)
Record Column : Type := {
  name : string;
  dataType : string;
  defaultValue : value;
  bound : option value
}.

Definition Column_value (c : Column) (v : value) : Column :=
  {| name := name c; dataType := dataType c; defaultValue := defaultValue c;
     bound := Some v |}.

Record TableWithColumns : Type := {
  tbl_name : string;
  tbl_schema : string;
  columns : list Column
}.

(** [sql.define({name, schema, columns})] *)
Definition Sql_define (tname tschema : string) (defs : list PostgresColumnDefinition)
  : TableWithColumns :=
  {| tbl_name := tname; tbl_schema := tschema;
     columns := map (fun d => {| name := def_name d; dataType := def_dataType d;
                                 defaultValue := def_defaultValue d; bound := None |}) defs |}.

(** [table[field][method](args...)]: a predicate or an ordering built from a
    column. The request type names declared columns and methods of a column,
    so the two dynamic lookups succeed. *)
Inductive Node : Type :=
| ColumnCall (field method : string) (args : list value).

Inductive Projection : Type :=
| SelectFields (fields : list string)
| SelectCount (alias : string).

Record Query : Type := {
  q_from : TableWithColumns;
  q_select : Projection;
  q_where : option (list Node);
  q_order : option (list Node);
  q_offset : option Z;
  q_limit : option Z
}.

Definition table_select (t : TableWithColumns) (p : Projection) : Query :=
  {| q_from := t; q_select := p; q_where := None; q_order := None;
     q_offset := None; q_limit := None |}.

Definition Query_where (q : Query) (w : list Node) : Query :=
  {| q_from := q_from q; q_select := q_select q; q_where := Some w;
     q_order := q_order q; q_offset := q_offset q; q_limit := q_limit q |}.

Definition Query_order (q : Query) (o : list Node) : Query :=
  {| q_from := q_from q; q_select := q_select q; q_where := q_where q;
     q_order := Some o; q_offset := q_offset q; q_limit := q_limit q |}.

Definition Query_offset (q : Query) (n : Z) : Query :=
  {| q_from := q_from q; q_select := q_select q; q_where := q_where q;
     q_order := q_order q; q_offset := Some n; q_limit := q_limit q |}.

Definition Query_limit (q : Query) (n : Z) : Query :=
  {| q_from := q_from q; q_select := q_select q; q_where := q_where q;
     q_order := q_order q; q_offset := q_offset q; q_limit := Some n |}.

(** What [toQuery()] hands to the client. *)
Inductive Statement : Type :=
| CreateIfNotExists (t : TableWithColumns)
| Insert (t : TableWithColumns) (cols : list Column)
| Select (q : Query).

(** ** The request and the answers of [query] *)

(** Modelled from the spec: the types of [./query-options], which are the
    spec's FilterClause [{ field, operator, value }] and QueryRequest
    [{ fields?, where?, order?, limit?, page? }]. *)
Record WhereOption : Type := {
  w_field : string;
  w_operator : string;
  w_value : value
}.

Record QueryOptions : Type := {
  opt_fields : option (list string);
  opt_where : option (list WhereOption);
  opt_order : option (list (string * string));
  opt_limit : option Z;
  opt_page : option Z
}.

Definition row : Type := list (string * value).

(** The result object of pg's [client.query]. *)
Record QueryResult : Type := {
  res_rows : list row;
  res_rowCount : Z
}.

(** Modelled from the spec: the class [PaginatedDataDto] of
    [./paginated-data.dto], which is the spec's PageResult
    [{ rows, rowCount, limit, page, total }], its constructor taking the five
    fields in that order. *)
Record PaginatedDataDto : Type := {
  dto_rows : list row;
  dto_rowCount : Z;
  dto_limit : Z;
  dto_page : option Z;
  dto_total : value
}.

Inductive QueryAnswer : Type :=
| Rows (rows : list row)
| Page (page : PaginatedDataDto).

(** [v[i]] on an array. The request type gives the value of a between
    clause as the pair of its bounds. *)
Definition index (v : value) (i : nat) : value :=
  match v with
  | VArr items => nth i items VUndefined
  | _ => VUndefined
  end.

(** ** pg: the pool, its clients, and the calls the transport makes *)

Inductive SslOption : Type :=
| SslFlag (b : bool)
| SslConfig (rejectUnauthorized : bool).

Record Pool : Type := {
  connectionString : string;
  max : Z;
  ssl : SslOption;
  next_client : nat;
  checked_out : list nat
}.

Definition new_Pool (cs : string) (m : Z) (s : SslOption) : Pool :=
  {| connectionString := cs; max := m; ssl := s; next_client := 0; checked_out := [] |}.

(** The calls a chain makes to its collaborators: the pool and its clients,
    the event emitter ([Emit], which has its listeners: winston listens to
    the "error" events of the transports it is given), the callback of
    [log], and the two functions that settle the promise of [query]. *)
Inductive Event : Type :=
| Connect (client : nat)
| ConnectFailed (e : JsError)
| ClientQuery (client : nat) (s : Statement)
| Release (client : nat)
| Emit (event : string) (payload : value)
| Callback (args : list value)
| Resolve (answer : QueryAnswer)
| Reject (reason : value).

(** The answers of the world outside: whether the pool hands out a client,
    what the database answers to a statement, and what [release] does on a
    client that is already back in the pool (node-postgres throws). *)
Record Backend : Type := {
  connect_error : option JsError;
  execute : Statement -> JsError + QueryResult;
  release_again : option JsError
}.

Inductive completion (A : Type) : Type :=
| Fulfilled (a : A)
| Rejected (reason : value).

Arguments Fulfilled {A} a.
Arguments Rejected {A} reason.

(** A promise chain: it reads the backend, updates the pool, and yields its
    completion with the calls it made, oldest first. *)
Definition Async (A : Type) : Type :=
  Backend -> Pool -> completion A * Pool * list Event.

Definition ret {A : Type} (a : A) : Async A :=
  fun _ p => (Fulfilled a, p, []).

Definition throw {A : Type} (reason : value) : Async A :=
  fun _ p => (Rejected reason, p, []).

(** [m.then(f)] *)
Definition bind {A B : Type} (m : Async A) (f : A -> Async B) : Async B :=
  fun b p =>
    match m b p with
    | (Fulfilled a, p1, t1) =>
        match f a b p1 with
        | (r, p2, t2) => (r, p2, (t1 ++ t2)%list)
        end
    | (Rejected e, p1, t1) => (Rejected e, p1, t1)
    end.

(** [m.catch(h)] *)
Definition catch {A : Type} (m : Async A) (h : value -> Async A) : Async A :=
  fun b p =>
    match m b p with
    | (Fulfilled a, p1, t1) => (Fulfilled a, p1, t1)
    | (Rejected e, p1, t1) =>
        match h e b p1 with
        | (r, p2, t2) => (r, p2, (t1 ++ t2)%list)
        end
    end.

Declare Scope async_scope.
Delimit Scope async_scope with async.
Notation "x <- m ;; k" := (bind m (fun x => k))
  (at level 61, m at next level, right associativity) : async_scope.
Notation "m ;; k" := (bind m (fun _ => k))
  (at level 61, right associativity) : async_scope.
#[local] Open Scope async_scope.

Definition tell (ev : Event) : Async unit :=
  fun _ p => (Fulfilled tt, p, [ev]).

Definition set_checked_out (p : Pool) (l : list nat) : Pool :=
  {| connectionString := connectionString p; max := max p; ssl := ssl p;
     next_client := next_client p; checked_out := l |}.

(** [pool.connect()] *)
Definition pool_connect : Async nat :=
  fun b p =>
    match connect_error b with
    | Some e => (Rejected (VError e), p, [ConnectFailed e])
    | None =>
        let c := next_client p in
        (Fulfilled c,
         {| connectionString := connectionString p; max := max p; ssl := ssl p;
            next_client := S c; checked_out := c :: checked_out p |},
         [Connect c])
    end.

(** [client.query(statement)] *)
Definition client_query (c : nat) (s : Statement) : Async QueryResult :=
  fun b p =>
    match execute b s with
    | inl e => (Rejected (VError e), p, [ClientQuery c s])
    | inr r => (Fulfilled r, p, [ClientQuery c s])
    end.

(** [client.release()] *)
Definition client_release (c : nat) : Async unit :=
  fun b p =>
    if existsb (Nat.eqb c) (checked_out p) then
      (Fulfilled tt,
       set_checked_out p (filter (fun x => negb (Nat.eqb c x)) (checked_out p)),
       [Release c])
    else
      match release_again b with
      | Some e => (Rejected (VError e), p, [Release c])
      | None => (Fulfilled tt, p, [Release c])
      end.

Definition type_error (msg : string) : JsError :=
  {| err_message := msg; err_stack := "TypeError: " ++ msg |}.

(** [e.stack] *)
Definition stack_of (e : value) : Async value :=
  match e with
  | VError err => ret (VStr (err_stack err))
  | VObj props => ret (lookup "stack" props)
  | VUndefined => throw (VError (type_error "Cannot read properties of undefined (reading 'stack')"))
  | VNull => throw (VError (type_error "Cannot read properties of null (reading 'stack')"))
  | _ => ret VUndefined
  end.

(** ** The transport *)

(** The constants of [./postgres.constants], which the constructor falls
    back on; the transport is modelled for any values of them. *)
Record PostgresConstants : Type := {
  DEFAULT_LEVEL : string;
  DEFAULT_SCHEMA : string;
  DEFAULT_TABLE_NAME : string;
  DEFAULT_TABLE_COLUMNS : list PostgresColumnDefinition;
  DEFAULT_POOL : Z;
  DIALECT : string
}.

Record PostgresOptions : Type := {
  o_connectionString : option string;
  o_maxPool : option Z;
  o_ssl : option SslOption;
  o_schema : option string;
  o_tableName : option string;
  o_tableColumns : option (list PostgresColumnDefinition);
  o_timezone : option string;
  o_level : option string;
  o_silent : option bool
}.

Record PostgresTransport : Type := {
  level : string;
  silent : bool;
  schema : string;
  table : TableWithColumns;
  tableName : string;
  tableColumns : list PostgresColumnDefinition;
  timezone : option string;
  sql : string;
  pool : Pool
}.

Definition with_pool (this : PostgresTransport) (p : Pool) : PostgresTransport :=
  {| level := level this; silent := silent this; schema := schema this;
     table := table this; tableName := tableName this;
     tableColumns := tableColumns this; timezone := timezone this;
     sql := sql this; pool := p |}.

(** Runs a promise chain of the transport on the transport's pool. *)
Definition run {A : Type} (m : Async A) (b : Backend) (this : PostgresTransport)
  : completion A * PostgresTransport * list Event :=
  match m b (pool this) with
  | (r, p, tr) => (r, with_pool this p, tr)
  end.

(** *** hydrateColumns *)

Definition hydrateColumn (this : PostgresTransport) (args : row) (column : Column) : Column :=
  let value := lookup (name column) args in
  if String.eqb (dataType column) "JSON" then
    Column_value column
      (match JSON.stringify value with
       | Some text => VStr text
       | None => VUndefined
       end)
  else if existsb (String.eqb (dataType column)) ["TIMESTAMP"; "TIMESTAMPTZ"] then
    let tz := match timezone this with
              | Some (String a s) => " at time zone '" ++ String a s ++ "'"
              | _ => EmptyString
              end in
    Column_value column (VStr ("NOW()" ++ tz))
  else Column_value column (nullish value (defaultValue column)).

Definition hydrateColumns (this : PostgresTransport) (args : row) (cols : list Column)
  : list Column :=
  map (hydrateColumn this args) cols.

(** *** log *)

(** The statement [log] hands to the client. *)
Definition insert_statement (this : PostgresTransport) (args : row) : Statement :=
  let cols := hydrateColumns this args (columns (table this)) in
  Insert (table this) (filter (fun c => negb (String.eqb (dataType c) "SERIAL")) cols).

Definition log (this : PostgresTransport) (args : row) : Async unit :=
  if silent this then tell (Callback [VNull; VBool true])
  else
    let query := insert_statement this args in
    client <- pool_connect ;;
    catch
      (client_query client query ;;
       client_release client ;;
       tell (Emit "logged" (VObj args)) ;;
       tell (Callback [VNull; VBool true]))
      (fun e =>
         client_release client ;;
         s <- stack_of e ;;
         tell (Emit "error" s) ;;
         s' <- stack_of e ;;
         tell (Callback [s'])).

(** *** query *)

(** [if (o) k(o) else d] on an optional number. *)
Definition if_number {A : Type} (o : option Z) (k : Z -> A) (d : A) : A :=
  match o with
  | Some n => if Z.eqb n 0 then d else k n
  | None => d
  end.

Definition where_node (opt : WhereOption) : Node :=
  if orb (String.eqb (w_operator opt) "between") (String.eqb (w_operator opt) "notBetween")
  then ColumnCall (w_field opt) (w_operator opt) [index (w_value opt) 0; index (w_value opt) 1]
  else ColumnCall (w_field opt) (w_operator opt) [w_value opt].

Definition order_node (kv : string * string) : Node :=
  ColumnCall (fst kv) (toLowerCase (snd kv)) [].

(** The select statement of a request. *)
Definition select_query (this : PostgresTransport) (options : QueryOptions) : Query :=
  let fields := match opt_fields options with
                | Some fs => fs
                | None => map def_name (tableColumns this)
                end in
  let query := table_select (table this) (SelectFields fields) in
  let query := match opt_where options with
               | Some w => Query_where query (map where_node w)
               | None => query
               end in
  let query := match opt_order options with
               | Some o => Query_order query (map order_node o)
               | None => query
               end in
  if_number (opt_limit options)
    (fun limit =>
       let offset := if_number (opt_page options) (fun page => limit * page)%Z 0%Z in
       Query_limit (Query_offset query offset) limit)
    query.

(** The count statement of a request. *)
Definition count_query (this : PostgresTransport) (options : QueryOptions) : Query :=
  let countQuery := table_select (table this) (SelectCount "total") in
  match opt_where options with
  | Some w => Query_where countQuery (map where_node w)
  | None => countQuery
  end.

(** [count.rows.length > 0 ? count.rows[0].total : 0] *)
Definition total_of (count : QueryResult) : value :=
  match res_rows count with
  | r :: _ => lookup "total" r
  | [] => VNum 0
  end.

(** The chain started by the executor of the promise [query] returns;
    [Resolve] and [Reject] are the calls that settle that promise. *)
Definition query (this : PostgresTransport) (options : QueryOptions) : Async unit :=
  let q := select_query this options in
  let countQuery := count_query this options in
  client <- pool_connect ;;
  catch
    (result <- client_query client (Select q) ;;
     client_release client ;;
     if_number (opt_limit options)
       (fun limit =>
          count <- client_query client (Select countQuery) ;;
          tell (Resolve (Page {| dto_rows := res_rows result;
                                 dto_rowCount := res_rowCount result;
                                 dto_limit := limit;
                                 dto_page := opt_page options;
                                 dto_total := total_of count |})))
       (tell (Resolve (Rows (res_rows result)))))
    (fun e =>
       client_release client ;;
       s <- stack_of e ;;
       tell (Reject s)).

(** How the promise of [query] ends: by its first settling call, or never. *)
Inductive settlement : Type :=
| Resolved (answer : QueryAnswer)
| RejectedWith (reason : value)
| Pending.

Fixpoint settled (tr : list Event) : settlement :=
  match tr with
  | [] => Pending
  | Resolve a :: _ => Resolved a
  | Reject r :: _ => RejectedWith r
  | _ :: rest => settled rest
  end.

(** *** constructor *)

Definition requires_connectionString : JsError :=
  let msg := "Postgres transport requires " ++
             String dquote ("connectionString" ++ String dquote ".") in
  {| err_message := msg; err_stack := "Error: " ++ msg |}.

(** The fields the constructor assigns. *)
Definition new_transport (K : PostgresConstants) (options : PostgresOptions) (cs : string)
  : PostgresTransport :=
  let schema_ := or_string (o_schema options) (DEFAULT_SCHEMA K) in
  let tableName_ := or_string (o_tableName options) (DEFAULT_TABLE_NAME K) in
  let tableColumns_ := match o_tableColumns options with
                       | Some cols => cols
                       | None => DEFAULT_TABLE_COLUMNS K
                       end in
  {| level := or_string (o_level options) (DEFAULT_LEVEL K);
     silent := match o_silent options with Some b => b | None => false end;
     schema := schema_;
     table := Sql_define tableName_ schema_ tableColumns_;
     tableName := tableName_;
     tableColumns := tableColumns_;
     timezone := if truthy_string (o_timezone options) then o_timezone options else None;
     sql := DIALECT K;
     pool := new_Pool cs
               (or_number (o_maxPool options) (DEFAULT_POOL K))
               (match o_ssl options with
                | Some (SslFlag false) | None => SslFlag false
                | Some s => s
                end) |}.

(** The chain the constructor starts and leaves behind. *)
Definition create_table (this : PostgresTransport) : Async unit :=
  client <- pool_connect ;;
  catch
    (client_query client (CreateIfNotExists (table this)) ;;
     client_release client)
    (fun e =>
       client_release client ;;
       s <- stack_of e ;;
       throw s).

(** [new PostgresTransport(options)]: [inl e] when the constructor throws
    [e] at its caller; otherwise the transport the caller receives, with the
    completion and the calls of the chain left behind. *)
Definition constructor (K : PostgresConstants) (options : PostgresOptions) (b : Backend)
  : JsError + (completion unit * PostgresTransport * list Event) :=
  match o_connectionString options with
  | Some (String a s) => inr (run (create_table (new_transport K options (String a s))) b
                                  (new_transport K options (String a s)))
  | _ => inl requires_connectionString
  end.

(** ** Reading a trace *)

Definition is_release (c : nat) (ev : Event) : bool :=
  match ev with
  | Release c' => Nat.eqb c c'
  | _ => false
  end.

Definition is_connect (ev : Event) : bool :=
  match ev with
  | Connect _ => true
  | _ => false
  end.

Definition is_count_query (ev : Event) : bool :=
  match ev with
  | ClientQuery _ (Select q) =>
      match q_select q with
      | SelectCount _ => true
      | SelectFields _ => false
      end
  | _ => false
  end.

(** How many times [client.release()] was called on client [c]. *)
Definition releases (c : nat) (tr : list Event) : nat :=
  List.length (filter (is_release c) tr).

(** How many clients the pool handed out. *)
Definition acquisitions (tr : list Event) : nat :=
  List.length (filter is_connect tr).

(** ** Sample data *)

Module Sample.

Definition K : PostgresConstants :=
  {| DEFAULT_LEVEL := "info";
     DEFAULT_SCHEMA := "public";
     DEFAULT_TABLE_NAME := "winston_logs";
     DEFAULT_TABLE_COLUMNS :=
       [ {| def_name := "id"; def_dataType := "SERIAL"; def_defaultValue := VUndefined |};
         {| def_name := "level"; def_dataType := "VARCHAR"; def_defaultValue := VUndefined |};
         {| def_name := "message"; def_dataType := "VARCHAR"; def_defaultValue := VUndefined |};
         {| def_name := "meta"; def_dataType := "JSON"; def_defaultValue := VUndefined |};
         {| def_name := "timestamp"; def_dataType := "TIMESTAMP"; def_defaultValue := VUndefined |} ];
     DEFAULT_POOL := 10%Z;
     DIALECT := "postgres" |}.

Definition options : PostgresOptions :=
  {| o_connectionString := Some "postgres://localhost/logs";
     o_maxPool := None; o_ssl := None; o_schema := None; o_tableName := None;
     o_tableColumns := None; o_timezone := Some "utc+2";
     o_level := None; o_silent := None |}.

Definition transport : PostgresTransport :=
  new_transport K options "postgres://localhost/logs".

Definition silent_transport : PostgresTransport :=
  new_transport K
    {| o_connectionString := Some "postgres://localhost/logs";
       o_maxPool := None; o_ssl := None; o_schema := None; o_tableName := None;
       o_tableColumns := None; o_timezone := None;
       o_level := None; o_silent := Some true |}
    "postgres://localhost/logs".

Definition record : row :=
  [("level", VStr "info"); ("message", VStr "hi");
   ("meta", VObj [("tags", VArr [VStr "a"; VNull; VNum (-3)]); ("ok", VBool true)]);
   ("timestamp", VStr "2020-01-01")].

Definition boom : JsError :=
  {| err_message := "relation does not exist";
     err_stack := "error: relation does not exist at Parser.parseErrorMessage" |}.

Definition released_twice : JsError :=
  {| err_message := "Release called on client which has already been released to the pool.";
     err_stack := "Error: Release called on client which has already been released to the pool." |}.

Definition some_rows : QueryResult :=
  {| res_rows := [[("level", VStr "info")]; [("level", VStr "warn")]]; res_rowCount := 2 |}.

(** Every statement succeeds. *)
Definition healthy : Backend :=
  {| connect_error := None;
     execute := fun _ => inr some_rows;
     release_again := Some released_twice |}.

(** Every statement fails. *)
Definition failing : Backend :=
  {| connect_error := None;
     execute := fun _ => inl boom;
     release_again := Some released_twice |}.

(** Selects succeed, counts fail. *)
Definition count_fails : Backend :=
  {| connect_error := None;
     execute := fun s =>
       match s with
       | Select q =>
           match q_select q with
           | SelectCount _ => inl boom
           | SelectFields _ => inr some_rows
           end
       | _ => inr some_rows
       end;
     release_again := Some released_twice |}.

Definition page_request : QueryOptions :=
  {| opt_fields := None; opt_where := None; opt_order := None;
     opt_limit := Some 10%Z; opt_page := Some 2%Z |}.

Definition plain_request : QueryOptions :=
  {| opt_fields := None; opt_where := None; opt_order := None;
     opt_limit := None; opt_page := None |}.

Definition zero_limit_request : QueryOptions :=
  {| opt_fields := None; opt_where := None; opt_order := None;
     opt_limit := Some 0%Z; opt_page := Some 3%Z |}.

Definition json_column : Column :=
  {| name := "meta"; dataType := "JSON"; defaultValue := VUndefined; bound := None |}.

Definition timestamp_column : Column :=
  {| name := "timestamp"; dataType := "TIMESTAMP"; defaultValue := VUndefined; bound := None |}.

End Sample.

(** The page index of a request: [page], 0 when it is not given. *)
Definition page_index (options : QueryOptions) : Z :=
  match opt_page options with
  | Some page => page
  | None => 0%Z
  end.

(** The rows a select skips: its OFFSET, none without the clause. *)
Definition rows_skipped (q : Query) : Z :=
  match q_offset q with
  | Some n => n
  | None => 0%Z
  end.

(** ** Measures on values and texts *)

(** The text [JSON.stringify] writes for an array element. *)
Definition text_of (v : value) : string :=
  match JSON.stringify v with
  | Some t => t
  | None => "null"
  end.

(** Steps the reader needs for a value: one per value, one more per
    element of an array and per member of an object. *)
Fixpoint size (v : value) : nat :=
  match v with
  | VArr items => S (fold_right (fun x n => S (size x + n)) 0 items)
  | VObj props => S (fold_right (fun p n => S (size (snd p) + n)) 0 props)
  | _ => 1
  end.

Definition sizes (items : list value) : nat :=
  fold_right (fun x n => S (size x + n)) 0 items.

Definition member_sizes (props : list (string * value)) : nat :=
  fold_right (fun p n => S (size (snd p) + n)) 0 props.

(** What may follow a number: anything but a digit. *)
Definition no_digit_head (s : string) : bool :=
  match s with
  | EmptyString => true
  | String c _ => negb (JSON.is_digit c)
  end.

(** The text of an object member. *)
Definition member_text (p : string * value) : string :=
  JSON.QuoteJSONString (fst p) ++ ":" ++ text_of (snd p).

(** [v] is read back from its text, whatever follows that is not a digit,
    with fuel for [size v] steps. *)
Definition reads_back (v : value) : Prop :=
  forall fuel rest,
    size v <= fuel -> no_digit_head rest = true ->
    JSON.parse_value fuel (text_of v ++ rest) = Some (v, rest).

(** Induction on values that reaches the elements of arrays and the members
    of objects. *)
Section value_induction.

Variable P : value -> Prop.
Hypothesis Hundefined : P VUndefined.
Hypothesis Hnull : P VNull.
Hypothesis Hbool : forall b, P (VBool b).
Hypothesis Hnum : forall n, P (VNum n).
Hypothesis Hstr : forall s, P (VStr s).
Hypothesis Harr : forall items, Forall P items -> P (VArr items).
Hypothesis Hobj : forall props, Forall (fun p => P (snd p)) props -> P (VObj props).
Hypothesis Herror : forall e, P (VError e).

Fixpoint value_nested_ind (v : value) : P v :=
  match v with
  | VUndefined => Hundefined
  | VNull => Hnull
  | VBool b => Hbool b
  | VNum n => Hnum n
  | VStr s => Hstr s
  | VArr items =>
      Harr items
        ((fix go (l : list value) : Forall P l :=
            match l with
            | [] => Forall_nil P
            | x :: l' => Forall_cons x (value_nested_ind x) (go l')
            end) items)
  | VObj props =>
      Hobj props
        ((fix go (l : list (string * value)) : Forall (fun p => P (snd p)) l :=
            match l with
            | [] => Forall_nil _
            | p :: l' => Forall_cons p (value_nested_ind (snd p)) (go l')
            end) props)
  | VError e => Herror e
  end.

End value_induction.

(** ** More ways to read a trace and a pool *)

Definition is_callback (ev : Event) : bool :=
  match ev with
  | Callback _ => true
  | _ => false
  end.

Definition is_emit (ev : Event) : bool :=
  match ev with
  | Emit _ _ => true
  | _ => false
  end.

Definition is_statement (ev : Event) : bool :=
  match ev with
  | ClientQuery _ _ => true
  | _ => false
  end.

Definition is_settling (ev : Event) : bool :=
  match ev with
  | Resolve _ | Reject _ => true
  | _ => false
  end.

(** How many times the callback of [log] was invoked. *)
Definition callbacks (tr : list Event) : nat :=
  List.length (filter is_callback tr).

(** The table a statement is about. *)
Definition statement_table (s : Statement) : TableWithColumns :=
  match s with
  | CreateIfNotExists t => t
  | Insert t _ => t
  | Select q => q_from q
  end.

(** The statements sent, in order. *)
Fixpoint statements (tr : list Event) : list Statement :=
  match tr with
  | [] => []
  | ClientQuery _ s :: rest => s :: statements rest
  | _ :: rest => statements rest
  end.

(** The clients a pool has out were all handed out by it: their numbers
    are below the next one. *)
Definition fresh_pool (p : Pool) : Prop :=
  Forall (fun c => c < next_client p) (checked_out p).


Definition is_upper (c : ascii) : bool :=
  andb (Nat.leb 65 (nat_of_ascii c)) (Nat.leb (nat_of_ascii c) 90).

Fixpoint no_upper (s : string) : bool :=
  match s with
  | EmptyString => true
  | String c rest => andb (negb (is_upper c)) (no_upper rest)
  end.

(** The types [hydrateColumns] treats apart. *)
Definition special_type (t : string) : bool :=
  orb (String.eqb t "JSON") (existsb (String.eqb t) ["TIMESTAMP"; "TIMESTAMPTZ"]).

(** The pool once a client was handed out and given back. *)
Definition pool_after (p : Pool) : Pool :=
  {| connectionString := connectionString p; max := max p; ssl := ssl p;
     next_client := S (next_client p);
     checked_out := filter (fun x => negb (Nat.eqb (next_client p) x)) (checked_out p) |}.

(** * Properties *)

(** ** The pool and the chains *)

Lemma with_pool_same (this : PostgresTransport) : with_pool this (pool this) = this.
Proof. destruct this; reflexivity. Qed.

Lemma existsb_eqb_head (c : nat) (l : list nat) : existsb (Nat.eqb c) (c :: l) = true.
Proof. simpl. now rewrite Nat.eqb_refl. Qed.

Lemma if_number_falsy {A : Type} (o : option Z) (k : Z -> A) (d : A) :
  truthy_number o = false -> if_number o k d = d.
Proof.
  destruct o as [n|]; simpl; [|reflexivity].
  destruct (Z.eqb n 0); [reflexivity|discriminate].
Qed.

Lemma if_number_truthy {A : Type} (n : Z) (k : Z -> A) (d : A) :
  n <> 0%Z -> if_number (Some n) k d = k n.
Proof.
  intros Hn. simpl. destruct (Z.eqb_spec n 0); [contradiction|reflexivity].
Qed.

(** ** Writing *)

(** C9. A [log] call on a silent transport only invokes its callback with
    success ([callback(null, true)]): the pool hands out no client, no
    statement is sent, no event is emitted, and the transport, its pool
    included, is left as it was, whatever the record. *)
Theorem log_silent_only_calls_back (this : PostgresTransport) (args : row) (b : Backend) :
  silent this = true ->
  run (log this args) b this = (Fulfilled tt, this, [Callback [VNull; VBool true]])
  /\ acquisitions (snd (run (log this args) b this)) = 0.
Proof.
  intros Hs. unfold run, log. rewrite Hs. cbn.
  rewrite with_pool_same. split; reflexivity.
Qed.

Lemma log_silent_only_calls_back_witness :
  silent Sample.silent_transport = true
  /\ run (log Sample.silent_transport Sample.record) Sample.failing Sample.silent_transport
     = (Fulfilled tt, Sample.silent_transport, [Callback [VNull; VBool true]]).
Proof.
  split; [reflexivity|].
  apply (log_silent_only_calls_back Sample.silent_transport Sample.record Sample.failing).
  reflexivity.
Defined.

Lemma hydrateColumn_keeps (this : PostgresTransport) (args : row) (c : Column) :
  name (hydrateColumn this args c) = name c
  /\ dataType (hydrateColumn this args c) = dataType c
  /\ defaultValue (hydrateColumn this args c) = defaultValue c
  /\ bound (hydrateColumn this args c) <> None.
Proof.
  unfold hydrateColumn.
  destruct (String.eqb (dataType c) "JSON");
    [|destruct (existsb (String.eqb (dataType c)) ["TIMESTAMP"; "TIMESTAMPTZ"])];
    cbn; repeat split; discriminate.
Qed.

Lemma hydrateColumns_filter (this : PostgresTransport) (args : row)
      (keep : string -> bool) (cols : list Column) :
  filter (fun c => keep (dataType c)) (hydrateColumns this args cols)
  = hydrateColumns this args (filter (fun c => keep (dataType c)) cols).
Proof.
  unfold hydrateColumns.
  induction cols as [|c cols IH]; [reflexivity|].
  cbn [map filter].
  destruct (hydrateColumn_keeps this args c) as (_ & Hd & _).
  rewrite Hd. destruct (keep (dataType c)); cbn [map]; now rewrite IH.
Qed.

(** C8. [hydrateColumns] returns one column per declared column, in the
    declared order: the same column, now carrying a value. The insert
    statement of [log] takes, of those, the ones whose type is not SERIAL. *)
Theorem hydrate_per_column_insert_without_serial
        (this : PostgresTransport) (args : row) (cols : list Column) :
  Forall2 (fun c h => name h = name c /\ dataType h = dataType c
                      /\ defaultValue h = defaultValue c /\ bound h <> None)
          cols (hydrateColumns this args cols)
  /\ exists inserted,
       insert_statement this args = Insert (table this) inserted
       /\ inserted = hydrateColumns this args
                       (filter (fun c => negb (String.eqb (dataType c) "SERIAL"))
                               (columns (table this)))
       /\ Forall (fun c => dataType c <> "SERIAL") inserted.
Proof.
  split.
  - unfold hydrateColumns. induction cols as [|c cols IH]; cbn [map]; constructor.
    + apply hydrateColumn_keeps.
    + exact IH.
  - eexists. split; [reflexivity|]. split.
    + apply (hydrateColumns_filter this args (fun d => negb (String.eqb d "SERIAL"))).
    + apply Forall_forall. intros c Hc. apply filter_In in Hc as [_ Hc].
      intros Heq. rewrite Heq in Hc. discriminate.
Qed.

(** ** Reading *)

Lemma select_query_unpaginated (this : PostgresTransport) (options : QueryOptions) :
  truthy_number (opt_limit options) = false ->
  q_offset (select_query this options) = None
  /\ q_limit (select_query this options) = None.
Proof.
  intros Hl. unfold select_query. rewrite (if_number_falsy _ _ _ Hl).
  destruct (opt_where options), (opt_order options); split; reflexivity.
Qed.

(** C4. When [limit] is given, the select skips [limit * page] rows, [page]
    counting as 0 when it is not given; for a limit other than 0 that is the
    OFFSET written into the statement. *)
Theorem offset_is_limit_times_page
        (this : PostgresTransport) (options : QueryOptions) (limit : Z) :
  opt_limit options = Some limit ->
  rows_skipped (select_query this options) = (limit * page_index options)%Z
  /\ (limit <> 0%Z ->
      q_offset (select_query this options) = Some (limit * page_index options)%Z
      /\ q_limit (select_query this options) = Some limit).
Proof.
  intros Hl. destruct (Z.eq_dec limit 0) as [-> | Hn].
  - split; [|intros H; now contradiction H].
    unfold rows_skipped.
    destruct (select_query_unpaginated this options) as [Ho _].
    + rewrite Hl. reflexivity.
    + rewrite Ho. reflexivity.
  - assert (Hq : q_offset (select_query this options) = Some (limit * page_index options)%Z
                 /\ q_limit (select_query this options) = Some limit).
    { unfold select_query. rewrite Hl, (if_number_truthy _ _ _ Hn).
      cbn [Query_limit Query_offset q_offset q_limit]. split; [|reflexivity].
      f_equal. unfold page_index, if_number.
      destruct (opt_page options) as [page|]; [|lia].
      destruct (Z.eqb_spec page 0); [subst; lia | reflexivity]. }
    split; [|intros _; exact Hq].
    unfold rows_skipped. now rewrite (proj1 Hq).
Qed.

Lemma offset_is_limit_times_page_witness :
  opt_limit Sample.page_request = Some 10%Z
  /\ opt_page Sample.page_request = Some 2%Z
  /\ q_offset (select_query Sample.transport Sample.page_request) = Some 20%Z.
Proof.
  split; [reflexivity|]. split; [reflexivity|].
  apply (offset_is_limit_times_page Sample.transport Sample.page_request 10%Z).
  - reflexivity.
  - discriminate.
Defined.

(** Once released, a client is no longer in the checked-out list. *)
Lemma released_not_checked_out (c : nat) (l : list nat) :
  existsb (Nat.eqb c) (filter (fun x => negb (Nat.eqb c x)) l) = false.
Proof.
  induction l as [|x l IH]; [reflexivity|].
  cbn [filter]. destruct (Nat.eqb c x) eqn:E; cbn [negb]; [exact IH|].
  cbn [existsb]. now rewrite E, IH.
Qed.

(** The calls of a read whose [limit] is absent or 0, by the answers of the
    backend. *)
Lemma query_unpaginated_trace (this : PostgresTransport) (options : QueryOptions) (b : Backend) :
  truthy_number (opt_limit options) = false ->
  snd (run (query this options) b this) =
  match connect_error b with
  | Some e => [ConnectFailed e]
  | None =>
      let c := next_client (pool this) in
      let s := Select (select_query this options) in
      match execute b s with
      | inl e => [Connect c; ClientQuery c s; Release c; Reject (VStr (err_stack e))]
      | inr r => [Connect c; ClientQuery c s; Release c; Resolve (Rows (res_rows r))]
      end
  end.
Proof.
  intros Hl. unfold run, query, bind, catch, pool_connect, client_query.
  destruct (connect_error b) as [e|]; [reflexivity|].
  destruct (execute b (Select (select_query this options))) as [e|r];
    unfold client_release; cbn [checked_out]; rewrite existsb_eqb_head.
  - reflexivity.
  - rewrite (if_number_falsy _ _ _ Hl). reflexivity.
Qed.

(** The calls of a read whose [limit] is a number other than 0. *)
Lemma query_paginated_trace (this : PostgresTransport) (options : QueryOptions)
      (b : Backend) (limit : Z) :
  opt_limit options = Some limit -> limit <> 0%Z ->
  snd (run (query this options) b this) =
  match connect_error b with
  | Some e => [ConnectFailed e]
  | None =>
      let c := next_client (pool this) in
      let s := Select (select_query this options) in
      let k := Select (count_query this options) in
      match execute b s with
      | inl e => [Connect c; ClientQuery c s; Release c; Reject (VStr (err_stack e))]
      | inr r =>
          match execute b k with
          | inr n =>
              [Connect c; ClientQuery c s; Release c; ClientQuery c k;
               Resolve (Page {| dto_rows := res_rows r; dto_rowCount := res_rowCount r;
                                dto_limit := limit; dto_page := opt_page options;
                                dto_total := total_of n |})]
          | inl e =>
              [Connect c; ClientQuery c s; Release c; ClientQuery c k; Release c]
              ++ match release_again b with
                 | Some _ => []
                 | None => [Reject (VStr (err_stack e))]
                 end
          end
      end
  end%list.
Proof.
  intros Hl Hn. unfold run, query, bind, catch, pool_connect, client_query.
  destruct (connect_error b) as [e|]; [reflexivity|].
  destruct (execute b (Select (select_query this options))) as [e|r];
    unfold client_release; cbn [checked_out]; rewrite existsb_eqb_head.
  - reflexivity.
  - rewrite Hl, (if_number_truthy _ _ _ Hn).
    destruct (execute b (Select (count_query this options))) as [e|n].
    + cbn. rewrite Nat.eqb_refl. cbn.
      rewrite released_not_checked_out.
      destruct (release_again b); reflexivity.
    + reflexivity.
Qed.

Lemma unpaginated_read (this : PostgresTransport) (options : QueryOptions) (b : Backend) :
  truthy_number (opt_limit options) = false ->
  (q_offset (select_query this options) = None
   /\ q_limit (select_query this options) = None)
  /\ filter is_count_query (snd (run (query this options) b this)) = []
  /\ (forall page, settled (snd (run (query this options) b this)) <> Resolved (Page page))
  /\ (forall result,
         connect_error b = None ->
         execute b (Select (select_query this options)) = inr result ->
         settled (snd (run (query this options) b this)) = Resolved (Rows (res_rows result))).
Proof.
  intros Hl. split; [now apply select_query_unpaginated|].
  rewrite (query_unpaginated_trace this options b Hl).
  assert (Hs : is_count_query
                 (ClientQuery (next_client (pool this)) (Select (select_query this options)))
               = false).
  { cbn. unfold select_query. rewrite (if_number_falsy _ _ _ Hl).
    destruct (opt_where options), (opt_order options); reflexivity. }
  split; [|split].
  - destruct (connect_error b); [reflexivity|].
    cbv zeta. destruct (execute b _); cbn [filter]; rewrite Hs; reflexivity.
  - intros page. destruct (connect_error b); [discriminate|].
    cbv zeta. destruct (execute b _); discriminate.
  - intros result Hc He. rewrite Hc. cbv zeta. rewrite He. reflexivity.
Qed.

(** C5. A read without [limit] sends a select with neither OFFSET nor
    LIMIT, sends no count statement, never resolves to a page, and resolves
    to the rows of the select whenever the pool hands out a client and the
    select succeeds. *)
Theorem read_without_limit_is_plain
        (this : PostgresTransport) (options : QueryOptions) (b : Backend) :
  opt_limit options = None ->
  (q_offset (select_query this options) = None
   /\ q_limit (select_query this options) = None)
  /\ filter is_count_query (snd (run (query this options) b this)) = []
  /\ (forall page, settled (snd (run (query this options) b this)) <> Resolved (Page page))
  /\ (forall result,
         connect_error b = None ->
         execute b (Select (select_query this options)) = inr result ->
         settled (snd (run (query this options) b this)) = Resolved (Rows (res_rows result))).
Proof.
  intros Hl. apply unpaginated_read. rewrite Hl. reflexivity.
Qed.

Lemma read_without_limit_is_plain_witness :
  opt_limit Sample.plain_request = None
  /\ settled (snd (run (query Sample.transport Sample.plain_request)
                       Sample.healthy Sample.transport))
     = Resolved (Rows (res_rows Sample.some_rows)).
Proof.
  split; [reflexivity|].
  apply (read_without_limit_is_plain Sample.transport Sample.plain_request Sample.healthy);
    reflexivity.
Defined.

(** C10. A read whose [limit] is 0 goes the way of a read without limit:
    no OFFSET nor LIMIT in the select, no count statement, never a page, and
    the rows of the select whenever the pool hands out a client and the
    select succeeds. *)
Theorem read_with_zero_limit_is_plain
        (this : PostgresTransport) (options : QueryOptions) (b : Backend) :
  opt_limit options = Some 0%Z ->
  (q_offset (select_query this options) = None
   /\ q_limit (select_query this options) = None)
  /\ filter is_count_query (snd (run (query this options) b this)) = []
  /\ (forall page, settled (snd (run (query this options) b this)) <> Resolved (Page page))
  /\ (forall result,
         connect_error b = None ->
         execute b (Select (select_query this options)) = inr result ->
         settled (snd (run (query this options) b this)) = Resolved (Rows (res_rows result))).
Proof.
  intros Hl. apply unpaginated_read. rewrite Hl. reflexivity.
Qed.

Lemma read_with_zero_limit_is_plain_witness :
  opt_limit Sample.zero_limit_request = Some 0%Z
  /\ settled (snd (run (query Sample.transport Sample.zero_limit_request)
                       Sample.healthy Sample.transport))
     = Resolved (Rows (res_rows Sample.some_rows)).
Proof.
  split; [reflexivity|].
  apply (read_with_zero_limit_is_plain Sample.transport Sample.zero_limit_request Sample.healthy);
    reflexivity.
Defined.

(** How often a read releases the client it was handed: twice when the
    count statement of a paginated read fails, once otherwise. *)
Lemma read_release_count (this : PostgresTransport) (options : QueryOptions) (b : Backend) :
  connect_error b = None ->
  releases (next_client (pool this)) (snd (run (query this options) b this)) =
  match execute b (Select (select_query this options)),
        execute b (Select (count_query this options)) with
  | inr _, inl _ => if truthy_number (opt_limit options) then 2 else 1
  | _, _ => 1
  end.
Proof.
  intros Hc. unfold releases.
  destruct (truthy_number (opt_limit options)) eqn:Hl.
  - destruct (opt_limit options) as [limit|] eqn:Ho; [|discriminate].
    assert (Hn : limit <> 0%Z) by (intros ->; discriminate).
    rewrite (query_paginated_trace this options b limit Ho Hn), Hc. cbv zeta.
    destruct (execute b (Select (select_query this options)));
      [|destruct (execute b (Select (count_query this options)));
        [destruct (release_again b)|]];
      cbn; rewrite ?Nat.eqb_refl; reflexivity.
  - rewrite (query_unpaginated_trace this options b Hl), Hc. cbv zeta.
    destruct (execute b (Select (select_query this options)));
      destruct (execute b (Select (count_query this options)));
      cbn; rewrite ?Nat.eqb_refl; reflexivity.
Qed.

(** C1. On a paginated read whose select succeeds and whose count statement
    fails, the one client the pool handed out is released twice: once right
    after the select, before the count statement is sent on that same
    client, and once more by the error handler. *)
Theorem paginated_read_count_failure_releases_twice
        (this : PostgresTransport) (options : QueryOptions) (b : Backend)
        (limit : Z) (result : QueryResult) (e : JsError) :
  opt_limit options = Some limit -> limit <> 0%Z ->
  connect_error b = None ->
  execute b (Select (select_query this options)) = inr result ->
  execute b (Select (count_query this options)) = inl e ->
  acquisitions (snd (run (query this options) b this)) = 1
  /\ releases (next_client (pool this)) (snd (run (query this options) b this)) = 2
  /\ exists after,
       snd (run (query this options) b this) =
       ([Connect (next_client (pool this));
         ClientQuery (next_client (pool this)) (Select (select_query this options));
         Release (next_client (pool this));
         ClientQuery (next_client (pool this)) (Select (count_query this options));
         Release (next_client (pool this))] ++ after)%list.
Proof.
  intros Hl Hn Hc Hs Hk.
  rewrite (query_paginated_trace this options b limit Hl Hn), Hc. cbv zeta.
  rewrite Hs, Hk. unfold acquisitions, releases.
  destruct (release_again b); cbn; rewrite ?Nat.eqb_refl; cbn;
    (split; [reflexivity|split; [reflexivity|eexists; reflexivity]]).
Qed.

Lemma paginated_read_count_failure_releases_twice_witness :
  opt_limit Sample.page_request = Some 10%Z
  /\ execute Sample.count_fails (Select (count_query Sample.transport Sample.page_request))
     = inl Sample.boom
  /\ releases 0 (snd (run (query Sample.transport Sample.page_request)
                          Sample.count_fails Sample.transport)) = 2.
Proof.
  split; [reflexivity|]. split; [reflexivity|].
  apply (paginated_read_count_failure_releases_twice
           Sample.transport Sample.page_request Sample.count_fails
           10%Z Sample.some_rows Sample.boom);
    first [reflexivity | discriminate].
Defined.

(** ** Errors *)

(** The calls of a write on a transport that is not silent. *)
Lemma log_trace (this : PostgresTransport) (args : row) (b : Backend) :
  silent this = false ->
  snd (run (log this args) b this) =
  match connect_error b with
  | Some e => [ConnectFailed e]
  | None =>
      let c := next_client (pool this) in
      let s := insert_statement this args in
      match execute b s with
      | inl e => [Connect c; ClientQuery c s; Release c;
                  Emit "error" (VStr (err_stack e)); Callback [VStr (err_stack e)]]
      | inr _ => [Connect c; ClientQuery c s; Release c;
                  Emit "logged" (VObj args); Callback [VNull; VBool true]]
      end
  end.
Proof.
  intros Hs. unfold run, log. rewrite Hs.
  unfold bind, catch, pool_connect, client_query.
  destruct (connect_error b) as [e|]; [reflexivity|].
  destruct (execute b (insert_statement this args)) as [e|r];
    unfold client_release; cbn [checked_out]; rewrite existsb_eqb_head; reflexivity.
Qed.

(** C3, as the claim states it, fails: when the insert of a write fails
    with the error [boom], neither the callback nor the "error" event
    receives [boom]; both receive the string [boom.stack]. *)
Lemma log_passes_stack_not_error :
  execute Sample.failing (insert_statement Sample.transport Sample.record) = inl Sample.boom
  /\ ~ In (Callback [VError Sample.boom])
          (snd (run (log Sample.transport Sample.record) Sample.failing Sample.transport))
  /\ ~ In (Emit "error" (VError Sample.boom))
          (snd (run (log Sample.transport Sample.record) Sample.failing Sample.transport))
  /\ In (Callback [VStr (err_stack Sample.boom)])
        (snd (run (log Sample.transport Sample.record) Sample.failing Sample.transport)).
Proof.
  split; [reflexivity|].
  rewrite (log_trace Sample.transport Sample.record Sample.failing eq_refl).
  cbn. repeat split.
  - intros H. repeat (destruct H as [H|H]; [discriminate H|]). exact H.
  - intros H. repeat (destruct H as [H|H]; [discriminate H|]). exact H.
  - do 4 right. left. reflexivity.
Qed.

(** C3, amended. When the insert of a write, or the select of a read, fails
    with an error [e], the statement is sent once and the string [e.stack]
    reaches the caller: as the payload of the "error" event and as the
    only argument of the callback for a write, as the rejection reason for
    a read. *)
Theorem statement_error_stack_reaches_caller
        (this : PostgresTransport) (args : row) (options : QueryOptions)
        (b : Backend) (e : JsError) :
  connect_error b = None ->
  (silent this = false ->
   execute b (insert_statement this args) = inl e ->
   snd (run (log this args) b this) =
   [Connect (next_client (pool this));
    ClientQuery (next_client (pool this)) (insert_statement this args);
    Release (next_client (pool this));
    Emit "error" (VStr (err_stack e));
    Callback [VStr (err_stack e)]])
  /\ (execute b (Select (select_query this options)) = inl e ->
      snd (run (query this options) b this) =
      [Connect (next_client (pool this));
       ClientQuery (next_client (pool this)) (Select (select_query this options));
       Release (next_client (pool this));
       Reject (VStr (err_stack e))]
      /\ settled (snd (run (query this options) b this)) = RejectedWith (VStr (err_stack e))).
Proof.
  intros Hc. split.
  - intros Hs He. rewrite (log_trace this args b Hs), Hc. cbv zeta. now rewrite He.
  - intros He.
    assert (Ht : snd (run (query this options) b this) =
                 [Connect (next_client (pool this));
                  ClientQuery (next_client (pool this)) (Select (select_query this options));
                  Release (next_client (pool this));
                  Reject (VStr (err_stack e))]).
    { destruct (truthy_number (opt_limit options)) eqn:Hl.
      - destruct (opt_limit options) as [limit|] eqn:Ho; [|discriminate].
        assert (Hn : limit <> 0%Z) by (intros ->; discriminate).
        rewrite (query_paginated_trace this options b limit Ho Hn), Hc. cbv zeta.
        now rewrite He.
      - rewrite (query_unpaginated_trace this options b Hl), Hc. cbv zeta.
        now rewrite He. }
    rewrite Ht. split; reflexivity.
Qed.

Lemma statement_error_stack_reaches_caller_witness :
  connect_error Sample.failing = None
  /\ silent Sample.transport = false
  /\ execute Sample.failing (insert_statement Sample.transport Sample.record) = inl Sample.boom
  /\ execute Sample.failing (Select (select_query Sample.transport Sample.page_request))
     = inl Sample.boom
  /\ In (Callback [VStr (err_stack Sample.boom)])
        (snd (run (log Sample.transport Sample.record) Sample.failing Sample.transport))
  /\ settled (snd (run (query Sample.transport Sample.page_request)
                       Sample.failing Sample.transport))
     = RejectedWith (VStr (err_stack Sample.boom)).
Proof.
  destruct (statement_error_stack_reaches_caller
              Sample.transport Sample.record Sample.page_request
              Sample.failing Sample.boom eq_refl) as [Hw Hr].
  repeat (split; [reflexivity|]).
  split.
  - rewrite (Hw eq_refl eq_refl). do 4 right. left. reflexivity.
  - exact (proj2 (Hr eq_refl)).
Defined.

(** The chain the constructor leaves behind, by the answers of the
    backend. *)
Lemma create_table_run (this : PostgresTransport) (b : Backend) :
  connect_error b = None ->
  exists p,
    run (create_table this) b this =
    (match execute b (CreateIfNotExists (table this)) with
     | inl e => Rejected (VStr (err_stack e))
     | inr _ => Fulfilled tt
     end,
     with_pool this p,
     [Connect (next_client (pool this));
      ClientQuery (next_client (pool this)) (CreateIfNotExists (table this));
      Release (next_client (pool this))])
    /\ checked_out p = filter (fun x => negb (Nat.eqb (next_client (pool this)) x))
                              (checked_out (pool this)).
Proof.
  intros Hc. unfold run, create_table, bind, catch, pool_connect, client_query.
  rewrite Hc.
  destruct (execute b (CreateIfNotExists (table this))) as [e|r];
    unfold client_release; cbn [checked_out]; rewrite existsb_eqb_head; cbn;
    rewrite Nat.eqb_refl; cbn; eexists; split; reflexivity.
Qed.

(** C2, as the claim states it, fails: with a backend on which the
    create-table statement fails, the constructor throws nothing at its
    caller, which receives a transport. *)
Lemma constructor_returns_despite_create_failure :
  execute Sample.failing (CreateIfNotExists (table Sample.transport)) = inl Sample.boom
  /\ (forall e, constructor Sample.K Sample.options Sample.failing <> inl e)
  /\ exists tr, constructor Sample.K Sample.options Sample.failing
                = inr (Rejected (VStr (err_stack Sample.boom)),
                       with_pool Sample.transport
                         {| connectionString := "postgres://localhost/logs"; max := 10;
                            ssl := SslFlag false; next_client := 1; checked_out := [] |},
                       tr).
Proof.
  split; [reflexivity|]. split.
  - intros e. discriminate.
  - eexists. reflexivity.
Qed.

(** C2, amended. When the create-table statement sent at construction
    fails with an error [e], the client borrowed for it is released, once,
    and the chain the constructor left behind is rejected with the string
    [e.stack], a rejection that nothing handles; the constructor has
    returned the transport to its caller. *)
Theorem create_failure_releases_and_rejects_chain
        (K : PostgresConstants) (options : PostgresOptions) (b : Backend)
        (cs : string) (e : JsError) :
  o_connectionString options = Some cs -> cs <> EmptyString ->
  connect_error b = None ->
  execute b (CreateIfNotExists (table (new_transport K options cs))) = inl e ->
  exists this tr,
    constructor K options b = inr (Rejected (VStr (err_stack e)), this, tr)
    /\ tr = [Connect 0;
             ClientQuery 0 (CreateIfNotExists (table (new_transport K options cs)));
             Release 0]
    /\ acquisitions tr = 1 /\ releases 0 tr = 1
    /\ checked_out (pool this) = [].
Proof.
  intros Ho Hne Hc He. unfold constructor. rewrite Ho.
  destruct cs as [|a s]; [contradiction|].
  destruct (create_table_run (new_transport K options (String a s)) b Hc) as (p & Hr & Hp).
  rewrite Hr, He. do 2 eexists. split; [reflexivity|].
  split; [reflexivity|]. split; [reflexivity|]. split; [reflexivity|].
  cbn [pool with_pool]. rewrite Hp. reflexivity.
Qed.

Lemma create_failure_releases_and_rejects_chain_witness :
  exists this tr,
    constructor Sample.K Sample.options Sample.failing
    = inr (Rejected (VStr (err_stack Sample.boom)), this, tr)
    /\ tr = [Connect 0; ClientQuery 0 (CreateIfNotExists (table Sample.transport)); Release 0]
    /\ acquisitions tr = 1 /\ releases 0 tr = 1
    /\ checked_out (pool this) = [].
Proof.
  apply (create_failure_releases_and_rejects_chain
           Sample.K Sample.options Sample.failing "postgres://localhost/logs" Sample.boom);
    first [reflexivity | discriminate].
Defined.

(** ** Hydration *)

(** C6. A column of type TIMESTAMP or TIMESTAMPTZ gets the text of a
    current-time expression, [NOW()] followed by a qualifier, whatever the
    record holds for it: [NOW() at time zone '<timezone>'] with the
    timezone of the transport written as it is, plain [NOW()] when the
    transport has none. *)
Theorem timestamp_column_hydrates_to_now
        (this : PostgresTransport) (args : row) (column : Column) :
  dataType column = "TIMESTAMP" \/ dataType column = "TIMESTAMPTZ" ->
  exists expr,
    bound (hydrateColumn this args column) = Some (VStr expr)
    /\ (forall args', hydrateColumn this args' column = hydrateColumn this args column)
    /\ (exists qualifier, expr = "NOW()" ++ qualifier)
    /\ (forall tz, timezone this = Some tz -> tz <> EmptyString ->
                   expr = "NOW() at time zone '" ++ tz ++ "'")
    /\ (forall tz, timezone this = Some tz -> exists pre post, expr = pre ++ tz ++ post)
    /\ (timezone this = None -> expr = "NOW()").
Proof.
  intros Hd.
  assert (Hj : String.eqb (dataType column) "JSON" = false)
    by (destruct Hd as [-> | ->]; reflexivity).
  assert (Ht : existsb (String.eqb (dataType column)) ["TIMESTAMP"; "TIMESTAMPTZ"] = true)
    by (destruct Hd as [-> | ->]; reflexivity).
  unfold hydrateColumn. rewrite Hj, Ht. cbn [bound Column_value].
  eexists. split; [reflexivity|]. split; [reflexivity|].
  split; [eexists; reflexivity|].
  split; [|split].
  - intros tz Htz Hne. rewrite Htz. destruct tz; [contradiction|reflexivity].
  - intros tz Htz. rewrite Htz. destruct tz as [|a s].
    + exists "NOW()", EmptyString. reflexivity.
    + exists "NOW() at time zone '", "'". reflexivity.
  - intros Htz. rewrite Htz. reflexivity.
Qed.

Lemma timestamp_column_hydrates_to_now_witness :
  dataType Sample.timestamp_column = "TIMESTAMP"
  /\ lookup "timestamp" Sample.record = VStr "2020-01-01"
  /\ timezone Sample.transport = Some "utc+2"
  /\ bound (hydrateColumn Sample.transport Sample.record Sample.timestamp_column)
     = Some (VStr "NOW() at time zone 'utc+2'").
Proof.
  repeat (split; [reflexivity|]).
  destruct (timestamp_column_hydrates_to_now
              Sample.transport Sample.record Sample.timestamp_column (or_introl eq_refl))
    as (expr & Hb & _ & _ & Hz & _).
  rewrite Hb, (Hz "utc+2" eq_refl); [reflexivity|discriminate].
Defined.

(** ** JSON texts *)

Lemma append_assoc (a b c : string) : (a ++ b) ++ c = a ++ (b ++ c).
Proof. induction a as [|x a IH]; cbn; [reflexivity | now rewrite IH]. Qed.

Lemma append_nil_r (a : string) : a ++ EmptyString = a.
Proof. induction a as [|x a IH]; cbn; [reflexivity | now rewrite IH]. Qed.

Lemma length_append (a b : string) :
  String.length (a ++ b) = String.length a + String.length b.
Proof. induction a as [|x a IH]; cbn; [reflexivity | now rewrite IH]. Qed.

(** Reading back one escaped character. *)
Lemma parse_chars_escape_char (c : ascii) (s : string) :
  JSON.parse_chars (JSON.escape_char c ++ s) = JSON.cons_char c (JSON.parse_chars s).
Proof.
  destruct c as [[|] [|] [|] [|] [|] [|] [|] [|]]; reflexivity.
Qed.

(** Reading back a quoted string, after its opening quote. *)
Lemma parse_chars_escape (s rest : string) :
  JSON.parse_chars (JSON.escape s ++ String dquote rest) = Some (s, rest).
Proof.
  induction s as [|c s IH]; [reflexivity|].
  cbn [JSON.escape]. rewrite append_assoc, parse_chars_escape_char, IH. reflexivity.
Qed.

Lemma span_digits_uint (u : uint) (rest : string) :
  no_digit_head rest = true ->
  JSON.span_digits (NilEmpty.string_of_uint u ++ rest) = (NilEmpty.string_of_uint u, rest).
Proof.
  intros Hr. induction u; cbn [NilEmpty.string_of_uint append JSON.span_digits];
    try (change (JSON.is_digit _) with true; cbv iota; now rewrite IHu).
  destruct rest as [|c rest]; [reflexivity|].
  cbn in Hr |- *. destruct (JSON.is_digit c); [discriminate|reflexivity].
Qed.

Lemma unorm_to_uint (p : positive) : unorm (Pos.to_uint p) = Pos.to_uint p.
Proof.
  rewrite <- (DecimalPos.Unsigned.to_of (Pos.to_uint p)).
  now rewrite DecimalPos.Unsigned.of_to.
Qed.

Lemma parse_digits_uint (u : uint) (rest : string) :
  unorm u = u -> no_digit_head rest = true ->
  JSON.parse_digits (NilEmpty.string_of_uint u ++ rest) = Some (Z.of_uint u, rest).
Proof.
  intros Hu Hr. unfold JSON.parse_digits.
  rewrite (span_digits_uint u rest Hr), NilEmpty.usu.
  unfold JSON.uint_normal. destruct (uint_eq_dec (unorm u) u); [reflexivity|contradiction].
Qed.

(** A number starts with a digit or a minus sign. *)
Lemma number_to_string_head (n : Z) :
  exists c s, JSON.number_to_string n = String c s
              /\ orb (JSON.is_digit c) (Ascii.eqb c "-") = true.
Proof.
  unfold JSON.number_to_string.
  destruct n as [|p|p]; cbn.
  - do 2 eexists. split; reflexivity.
  - destruct (Pos.to_uint p); cbn; do 2 eexists; split; reflexivity.
  - do 2 eexists. split; reflexivity.
Qed.

Lemma string_of_uint_to_uint (p : positive) :
  NilZero.string_of_uint (Pos.to_uint p) = NilEmpty.string_of_uint (Pos.to_uint p).
Proof.
  pose proof (DecimalPos.Unsigned.to_uint_nonnil p) as Hn.
  destruct (Pos.to_uint p); [contradiction|..]; reflexivity.
Qed.

Lemma of_uint_to_uint (p : positive) : Z.of_uint (Pos.to_uint p) = Zpos p.
Proof. unfold Z.of_uint. now rewrite DecimalPos.Unsigned.of_to. Qed.

Lemma digit_is_not_minus (c : ascii) : JSON.is_digit c = true -> Ascii.eqb c "-" = false.
Proof.
  destruct c as [[|] [|] [|] [|] [|] [|] [|] [|]]; cbn; intros H;
    first [reflexivity | discriminate H].
Qed.

Lemma string_of_uint_head (u : uint) :
  u <> Nil ->
  exists c s, NilEmpty.string_of_uint u = String c s /\ JSON.is_digit c = true.
Proof.
  intros Hn. destruct u; [contradiction|..]; cbn; do 2 eexists; split; reflexivity.
Qed.

(** Reading back a number, when no digit follows it. *)
Lemma parse_number_to_string (n : Z) (rest : string) :
  no_digit_head rest = true ->
  JSON.parse_number (JSON.number_to_string n ++ rest) = Some (n, rest).
Proof.
  intros Hr. unfold JSON.number_to_string.
  destruct n as [|p|p]; cbn [Z.to_int NilZero.string_of_int].
  - change (NilZero.string_of_uint zero) with (NilEmpty.string_of_uint (D0 Nil)).
    change (JSON.parse_number (NilEmpty.string_of_uint (D0 Nil) ++ rest))
      with (JSON.parse_digits (NilEmpty.string_of_uint (D0 Nil) ++ rest)).
    now rewrite parse_digits_uint.
  - rewrite string_of_uint_to_uint.
    destruct (string_of_uint_head (Pos.to_uint p) (DecimalPos.Unsigned.to_uint_nonnil p))
      as (c & s & Hs & Hc).
    assert (Hp : JSON.parse_number (NilEmpty.string_of_uint (Pos.to_uint p) ++ rest)
                 = JSON.parse_digits (NilEmpty.string_of_uint (Pos.to_uint p) ++ rest)).
    { rewrite Hs. cbn [append JSON.parse_number].
      now rewrite (digit_is_not_minus c Hc). }
    rewrite Hp, (parse_digits_uint _ rest (unorm_to_uint p) Hr), of_uint_to_uint.
    reflexivity.
  - rewrite string_of_uint_to_uint.
    cbn [append JSON.parse_number]. change (Ascii.eqb "-" "-") with true. cbv iota.
    rewrite (parse_digits_uint _ rest (unorm_to_uint p) Hr), of_uint_to_uint.
    reflexivity.
Qed.

Lemma serializable_stringify (v : value) :
  JSON.serializable v = true -> JSON.stringify v = Some (text_of v).
Proof. destruct v; cbn; intros H; first [discriminate H | reflexivity]. Qed.

Lemma text_of_array (items : list value) :
  text_of (VArr items) = "[" ++ JSON.join_comma (map text_of items) ++ "]".
Proof. reflexivity. Qed.

Lemma text_of_object (props : list (string * value)) :
  forallb (fun p => JSON.serializable (snd p)) props = true ->
  text_of (VObj props) = "{" ++ JSON.join_comma (map member_text props) ++ "}".
Proof.
  intros Hs. unfold text_of. cbn [JSON.stringify]. do 3 f_equal.
  induction props as [|[k v] props IH]; [reflexivity|].
  cbn in Hs. apply andb_prop in Hs as [Hv Hs].
  cbn [flat_map map]. rewrite (IH Hs). unfold member_text at 2. cbn [fst snd].
  unfold text_of. rewrite (serializable_stringify v Hv). reflexivity.
Qed.

Lemma head_dispatch (c : ascii) :
  orb (JSON.is_digit c) (Ascii.eqb c "-") = true ->
  Ascii.eqb c "n" = false /\ Ascii.eqb c "t" = false /\ Ascii.eqb c "f" = false
  /\ Ascii.eqb c dquote = false /\ Ascii.eqb c "[" = false /\ Ascii.eqb c "{" = false
  /\ Ascii.eqb "]" c = false.
Proof.
  destruct c as [[|] [|] [|] [|] [|] [|] [|] [|]]; cbn; intros H;
    first [discriminate H | repeat split].
Qed.

(** The text of a value does not start with a closing bracket. *)
Lemma text_of_head (v : value) :
  JSON.serializable v = true ->
  exists c s, text_of v = String c s /\ Ascii.eqb "]" c = false.
Proof.
  destruct v as [| |b|n|s|items|props|e]; cbn [JSON.serializable]; intros Hs;
    try discriminate Hs.
  - do 2 eexists. split; reflexivity.
  - destruct b; do 2 eexists; split; reflexivity.
  - destruct (number_to_string_head n) as (c & s & Hn & Hc).
    exists c, s. split; [exact Hn|]. apply (head_dispatch c Hc).
  - do 2 eexists. split; reflexivity.
  - do 2 eexists. split; reflexivity.
  - do 2 eexists. split; reflexivity.
Qed.

Lemma join_comma_head (c : ascii) (s : string) (parts : list string) :
  exists s', JSON.join_comma (String c s :: parts) = String c s'.
Proof. destruct parts; cbn; eexists; reflexivity. Qed.

Lemma parse_elements_text (items : list value) :
  items <> [] -> Forall reads_back items ->
  forall fuel rest,
    sizes items <= fuel ->
    JSON.parse_elements fuel (JSON.join_comma (map text_of items) ++ String "]" rest)
    = Some (items, rest).
Proof.
  intros Hne Hall. induction Hall as [|x l Hx Hl IH]; [contradiction|].
  intros fuel rest Hf. destruct fuel as [|fuel]; [cbn in Hf; lia|].
  cbn [sizes fold_right] in Hf. fold (sizes l) in Hf.
  destruct l as [|y l].
  - cbn [map JSON.join_comma JSON.parse_elements].
    rewrite (Hx fuel (String "]" rest)); [reflexivity | lia | reflexivity].
  - change (JSON.join_comma (map text_of (x :: y :: l)))
      with (text_of x ++ "," ++ JSON.join_comma (map text_of (y :: l))).
    rewrite append_assoc.
    change (("," ++ JSON.join_comma (map text_of (y :: l))) ++ String "]" rest)
      with (String "," (JSON.join_comma (map text_of (y :: l)) ++ String "]" rest)).
    cbn [JSON.parse_elements].
    rewrite (Hx fuel _); [|lia|reflexivity].
    change (Ascii.eqb "," ",") with true. cbv iota.
    rewrite (IH ltac:(discriminate) fuel rest); [reflexivity|lia].
Qed.

Lemma parse_members_text (props : list (string * value)) :
  props <> [] -> Forall (fun p => reads_back (snd p)) props ->
  forall fuel rest,
    member_sizes props <= fuel ->
    JSON.parse_members fuel (JSON.join_comma (map member_text props) ++ String "}" rest)
    = Some (props, rest).
Proof.
  intros Hne Hall. induction Hall as [|[k v] l Hx Hl IH]; [contradiction|].
  intros fuel rest Hf. destruct fuel as [|fuel]; [cbn in Hf; lia|].
  cbn [member_sizes fold_right snd] in Hf. fold (member_sizes l) in Hf.
  cbn [snd] in Hx.
  assert (Hm : forall tail,
             member_text (k, v) ++ tail
             = String dquote (JSON.escape k ++ String dquote (String ":" (text_of v ++ tail)))).
  { intros tail. unfold member_text, JSON.QuoteJSONString. cbn [fst snd append].
    rewrite !append_assoc. reflexivity. }
  destruct l as [|q l].
  - cbn [map JSON.join_comma]. rewrite Hm.
    cbn [JSON.parse_members JSON.strip_prefix].
    change (Ascii.eqb dquote dquote) with true. cbv iota.
    rewrite parse_chars_escape.
    change (Ascii.eqb ":" ":") with true. cbv iota.
    rewrite (Hx fuel (String "}" rest)); [reflexivity | lia | reflexivity].
  - change (JSON.join_comma (map member_text ((k, v) :: q :: l)))
      with (member_text (k, v) ++ "," ++ JSON.join_comma (map member_text (q :: l))).
    rewrite append_assoc, Hm.
    change (("," ++ JSON.join_comma (map member_text (q :: l))) ++ String "}" rest)
      with (String "," (JSON.join_comma (map member_text (q :: l)) ++ String "}" rest)).
    cbn [JSON.parse_members JSON.strip_prefix].
    change (Ascii.eqb dquote dquote) with true. cbv iota.
    rewrite parse_chars_escape.
    change (Ascii.eqb ":" ":") with true. cbv iota.
    rewrite (Hx fuel _); [|lia|reflexivity].
    change (Ascii.eqb "," ",") with true. cbv iota.
    rewrite (IH ltac:(discriminate) fuel rest); [reflexivity|lia].
Qed.

Lemma Forall_reads_back {A : Type} (f : A -> value) (l : list A) :
  Forall (fun a => JSON.serializable (f a) = true -> reads_back (f a)) l ->
  forallb (fun a => JSON.serializable (f a)) l = true ->
  Forall (fun a => reads_back (f a)) l.
Proof.
  induction 1 as [|a l Ha Hl IH]; cbn; intros Hs; constructor;
    apply andb_prop in Hs as [Hs1 Hs2]; auto.
Qed.

(** Every value JSON represents is read back from the text written for
    it. *)
Lemma parse_value_text_of (v : value) : JSON.serializable v = true -> reads_back v.
Proof.
  induction v as [| |b|n|s|items IH|props IH|e] using value_nested_ind;
    cbn [JSON.serializable]; intros Hs; try discriminate Hs;
    intros fuel rest Hf Hr; (destruct fuel as [|fuel]; [cbn in Hf; lia|]).
  - reflexivity.
  - destruct b; reflexivity.
  - destruct (number_to_string_head n) as (c & s & Hn & Hc).
    destruct (head_dispatch c Hc) as (H1 & H2 & H3 & H4 & H5 & H6 & _).
    change (text_of (VNum n)) with (JSON.number_to_string n).
    pose proof (parse_number_to_string n rest Hr) as Hp.
    rewrite Hn in Hp |- *. cbn [append] in Hp |- *. cbn [JSON.parse_value].
    rewrite H1, H2, H3, H4, H5, H6, Hp. reflexivity.
  - change (text_of (VStr s)) with (JSON.QuoteJSONString s).
    unfold JSON.QuoteJSONString. cbn [append]. rewrite append_assoc.
    cbn [append JSON.parse_value].
    change (Ascii.eqb dquote "n") with false. change (Ascii.eqb dquote "t") with false.
    change (Ascii.eqb dquote "f") with false. change (Ascii.eqb dquote dquote) with true.
    cbv iota. rewrite parse_chars_escape. reflexivity.
  - rewrite text_of_array. cbn [append]. rewrite append_assoc. cbn [append].
    destruct items as [|x l]; [reflexivity|].
    assert (Hx : JSON.serializable x = true)
      by (cbn in Hs; now apply andb_prop in Hs as [Hs _]).
    destruct (text_of_head x Hx) as (c & s & Hc & Hb).
    destruct (join_comma_head c s (map text_of l)) as (s' & Hj).
    pose proof (parse_elements_text (x :: l) ltac:(discriminate)
                  (Forall_reads_back (fun a => a) (x :: l) IH Hs) fuel rest) as He.
    cbn [map] in He |- *. rewrite Hc in He |- *. rewrite Hj in He |- *.
    cbn [append] in He |- *. cbn [JSON.parse_value JSON.strip_prefix].
    change (Ascii.eqb "[" "n") with false. change (Ascii.eqb "[" "t") with false.
    change (Ascii.eqb "[" "f") with false. change (Ascii.eqb "[" dquote) with false.
    change (Ascii.eqb "[" "[") with true. cbv iota.
    rewrite Hb, He; [reflexivity|]. cbn [size] in Hf. fold (sizes (x :: l)) in Hf. lia.
  - rewrite (text_of_object props Hs). cbn [append]. rewrite append_assoc. cbn [append].
    destruct props as [|[k x] l]; [reflexivity|].
    pose proof (parse_members_text ((k, x) :: l) ltac:(discriminate)
                  (Forall_reads_back snd ((k, x) :: l) IH Hs) fuel rest) as He.
    destruct (join_comma_head dquote
                (JSON.escape k ++ String dquote EmptyString ++ ":" ++ text_of x)
                (map member_text l)) as (s' & Hj).
    assert (Hk : member_text (k, x)
                 = String dquote (JSON.escape k ++ String dquote EmptyString ++ ":" ++ text_of x)).
    { unfold member_text, JSON.QuoteJSONString. cbn [fst snd append].
      now rewrite !append_assoc. }
    cbn [map] in He |- *. rewrite Hk in He |- *. rewrite Hj in He |- *.
    cbn [append] in He |- *. cbn [JSON.parse_value JSON.strip_prefix].
    change (Ascii.eqb "{" "n") with false. change (Ascii.eqb "{" "t") with false.
    change (Ascii.eqb "{" "f") with false. change (Ascii.eqb "{" dquote) with false.
    change (Ascii.eqb "{" "[") with false. change (Ascii.eqb "{" "{") with true.
    change (Ascii.eqb "}" dquote) with false. cbv iota.
    rewrite He; [reflexivity|]. cbn [size] in Hf. fold (member_sizes ((k, x) :: l)) in Hf. lia.
Qed.

Lemma join_comma_length {A : Type} (w : A -> nat) (t : A -> string) (l : list A) :
  Forall (fun a => w a <= String.length (t a)) l ->
  fold_right (fun a n => S (w a + n)) 0 l
  <= String.length (JSON.join_comma (map t l)) + 1.
Proof.
  induction 1 as [|a l Ha Hl IH]; [cbn; lia|].
  cbn [fold_right map]. destruct l as [|a' l].
  - cbn. lia.
  - change (JSON.join_comma (t a :: map t (a' :: l)))
      with (t a ++ "," ++ JSON.join_comma (map t (a' :: l))).
    rewrite !length_append. cbn [String.length] in *. lia.
Qed.

Lemma Forall_size_le {A : Type} (f : A -> value) (l : list A) :
  Forall (fun a => JSON.serializable (f a) = true ->
                   size (f a) <= String.length (text_of (f a))) l ->
  forallb (fun a => JSON.serializable (f a)) l = true ->
  Forall (fun a => size (f a) <= String.length (text_of (f a))) l.
Proof.
  induction 1 as [|a l Ha Hl IH]; cbn; intros Hs; constructor;
    apply andb_prop in Hs as [Hs1 Hs2]; auto.
Qed.

(** The text of a value has at least as many characters as the reader
    needs steps. *)
Lemma size_le_length (v : value) :
  JSON.serializable v = true -> size v <= String.length (text_of v).
Proof.
  induction v as [| |b|n|s|items IH|props IH|e] using value_nested_ind;
    cbn [JSON.serializable]; intros Hs; try discriminate Hs.
  - cbn. lia.
  - destruct b; cbn; lia.
  - destruct (number_to_string_head n) as (c & s & Hn & _).
    change (text_of (VNum n)) with (JSON.number_to_string n). rewrite Hn. cbn. lia.
  - cbn. lia.
  - rewrite text_of_array. cbn [append String.length size]. rewrite length_append.
    pose proof (join_comma_length size text_of items
                  (Forall_size_le (fun a => a) items IH Hs)).
    cbn [String.length]. lia.
  - rewrite (text_of_object props Hs). cbn [append String.length size].
    rewrite length_append.
    assert (Hm : Forall (fun p => size (snd p) <= String.length (member_text p)) props).
    { pose proof (Forall_size_le snd props IH Hs) as Hall.
      apply Forall_forall. intros p Hp.
      pose proof (proj1 (Forall_forall _ _) Hall p Hp) as Hle. cbn beta in Hle.
      unfold member_text. rewrite !length_append. lia. }
    pose proof (join_comma_length (fun p => size (snd p)) member_text props Hm).
    cbn [String.length]. lia.
Qed.

(** What [JSON.stringify] writes for a value JSON represents is JSON text,
    and denotes that value. *)
Lemma parse_stringify (v : value) (text : string) :
  JSON.serializable v = true ->
  JSON.stringify v = Some text ->
  JSON.parse text = Some v.
Proof.
  intros Hs Ht. rewrite (serializable_stringify v Hs) in Ht.
  injection Ht as <-. unfold JSON.parse.
  pose proof (parse_value_text_of v Hs (S (String.length (text_of v))) EmptyString) as Hp.
  rewrite append_nil_r in Hp. rewrite Hp; [reflexivity| |reflexivity].
  pose proof (size_le_length v Hs). lia.
Qed.

Lemma lookup_absent (key : string) (props : list (string * value)) :
  ~ In key (map fst props) -> lookup key props = VUndefined.
Proof.
  induction props as [|[k v] props IH]; [reflexivity|].
  cbn. intros Hn. destruct (String.eqb_spec k key) as [->|_].
  - exfalso. apply Hn. now left.
  - apply IH. intros Hin. apply Hn. now right.
Qed.

(** C7. For a column of type JSON, when the record holds for it a value
    that JSON represents (null, a boolean, a number, a string, an array or
    an object of such, nested at will), the column gets the text
    [JSON.stringify] writes for that value, a JSON text that reads back as
    the value. When the record has no such field, hydration still returns:
    the column gets [undefined]. *)
Theorem json_column_hydrates_to_json_text
        (this : PostgresTransport) (args : row) (column : Column) :
  dataType column = "JSON" ->
  (JSON.serializable (lookup (name column) args) = true ->
   exists text,
     bound (hydrateColumn this args column) = Some (VStr text)
     /\ JSON.stringify (lookup (name column) args) = Some text
     /\ JSON.parse text = Some (lookup (name column) args))
  /\ (~ In (name column) (map fst args) ->
      bound (hydrateColumn this args column) = Some VUndefined).
Proof.
  intros Hd. unfold hydrateColumn. rewrite Hd.
  change (String.eqb "JSON" "JSON") with true. cbv iota. cbn [bound Column_value].
  split.
  - intros Hs. exists (text_of (lookup (name column) args)).
    rewrite (serializable_stringify _ Hs). split; [reflexivity|]. split; [reflexivity|].
    apply (parse_stringify _ _ Hs), serializable_stringify, Hs.
  - intros Ha. rewrite (lookup_absent _ _ Ha). reflexivity.
Qed.

Lemma json_column_hydrates_to_json_text_witness :
  dataType Sample.json_column = "JSON"
  /\ lookup "meta" Sample.record
     = VObj [("tags", VArr [VStr "a"; VNull; VNum (-3)]); ("ok", VBool true)]
  /\ exists text,
       bound (hydrateColumn Sample.transport Sample.record Sample.json_column)
       = Some (VStr text)
       /\ JSON.stringify (lookup "meta" Sample.record) = Some text
       /\ JSON.parse text = Some (lookup "meta" Sample.record).
Proof.
  split; [reflexivity|]. split; [reflexivity|].
  apply (json_column_hydrates_to_json_text
           Sample.transport Sample.record Sample.json_column eq_refl).
  reflexivity.
Defined.

(** ** Sample runs *)

Example stringify_array :
  JSON.stringify (VArr [VNum 1; VUndefined; VNull; VBool true; VNum (-20)])
  = Some "[1,null,null,true,-20]".
Proof. reflexivity. Qed.

Example stringify_undefined : JSON.stringify VUndefined = None.
Proof. reflexivity. Qed.

Example stringify_skips_undefined_member :
  JSON.stringify (VObj [("a", VUndefined)]) = Some "{}".
Proof. reflexivity. Qed.

Example parse_array :
  JSON.parse "[1,[],{},null,false,-7]"
  = Some (VArr [VNum 1; VArr []; VObj []; VNull; VBool false; VNum (-7)]).
Proof. reflexivity. Qed.

Example parse_rejects_leading_zero : JSON.parse "[01]" = None.
Proof. reflexivity. Qed.

Example parse_rejects_trailing_comma : JSON.parse "[1,]" = None.
Proof. reflexivity. Qed.

Example hydrate_sample_record :
  map bound (hydrateColumns Sample.transport [("level", VStr "info")]
                            (columns (table Sample.transport)))
  = [Some VUndefined; Some (VStr "info"); Some VUndefined; Some VUndefined;
     Some (VStr "NOW() at time zone 'utc+2'")].
Proof. reflexivity. Qed.

Example paginated_read_resolves_to_page :
  settled (snd (run (query Sample.transport Sample.page_request)
                    Sample.healthy Sample.transport))
  = Resolved (Page {| dto_rows := res_rows Sample.some_rows;
                      dto_rowCount := 2; dto_limit := 10; dto_page := Some 2%Z;
                      dto_total := VUndefined |}).
Proof. reflexivity. Qed.

Example read_without_client_stays_pending :
  settled (snd (run (query Sample.transport Sample.plain_request)
                    {| connect_error := Some Sample.boom;
                       execute := fun _ => inr Sample.some_rows;
                       release_again := None |}
                    Sample.transport))
  = Pending.
Proof. reflexivity. Qed.

(** * Further properties *)

(** ** The constructor *)



(** X2. With a connection string, the constructor returns the transport
    and leaves one chain behind. When the pool hands out no client, that
    chain sends nothing and is rejected with the pool's error itself. When
    it does, the chain sends the create-table statement for the table of
    the transport, once, gives the client back, once, and is fulfilled when
    the statement succeeded. *)
Theorem constructor_run
        (K : PostgresConstants) (options : PostgresOptions) (b : Backend) (cs : string) :
  o_connectionString options = Some cs -> cs <> EmptyString ->
  constructor K options b =
  inr (match connect_error b with
       | Some e => (Rejected (VError e), new_transport K options cs, [ConnectFailed e])
       | None =>
           (match execute b (CreateIfNotExists (table (new_transport K options cs))) with
            | inl e => Rejected (VStr (err_stack e))
            | inr _ => Fulfilled tt
            end,
            with_pool (new_transport K options cs)
                      (pool_after (pool (new_transport K options cs))),
            [Connect 0;
             ClientQuery 0 (CreateIfNotExists (table (new_transport K options cs)));
             Release 0])
       end).
Proof.
  intros Ho Hne. unfold constructor. rewrite Ho.
  destruct cs as [|a s]; [contradiction|]. f_equal.
  unfold run, create_table, bind, catch, pool_connect, client_query.
  destruct (connect_error b) as [e|].
  - cbn. now rewrite with_pool_same.
  - destruct (execute b _) as [e|r];
      unfold client_release; cbn [checked_out]; rewrite existsb_eqb_head; reflexivity.
Qed.

Lemma constructor_run_witness :
  constructor Sample.K Sample.options Sample.healthy
  = inr (Fulfilled tt,
         with_pool Sample.transport (pool_after (pool Sample.transport)),
         [Connect 0; ClientQuery 0 (CreateIfNotExists (table Sample.transport)); Release 0]).
Proof.
  apply (constructor_run Sample.K Sample.options Sample.healthy "postgres://localhost/logs").
  - reflexivity.
  - discriminate.
Defined.

(** X3. The fallbacks of the constructor replace what is absent and what is
    falsy: an empty schema, table name or level, a pool size of 0, and an
    empty timezone count as not given. A list of columns is kept as given,
    also when it is empty: the defaults replace only an absent list. *)
Theorem constructor_fallbacks
        (K : PostgresConstants) (options : PostgresOptions) (cs : string) :
  (o_schema options = Some EmptyString -> schema (new_transport K options cs) = DEFAULT_SCHEMA K)
  /\ (o_tableName options = Some EmptyString ->
      tableName (new_transport K options cs) = DEFAULT_TABLE_NAME K)
  /\ (o_level options = Some EmptyString -> level (new_transport K options cs) = DEFAULT_LEVEL K)
  /\ (o_maxPool options = Some 0%Z -> max (pool (new_transport K options cs)) = DEFAULT_POOL K)
  /\ (o_timezone options = Some EmptyString -> timezone (new_transport K options cs) = None)
  /\ (forall cols, o_tableColumns options = Some cols ->
                   tableColumns (new_transport K options cs) = cols
                   /\ map name (columns (table (new_transport K options cs)))
                      = map def_name cols)
  /\ (o_tableColumns options = None ->
      tableColumns (new_transport K options cs) = DEFAULT_TABLE_COLUMNS K).
Proof.
  unfold new_transport. cbn.
  split; [intros H; now rewrite H|].
  split; [intros H; now rewrite H|].
  split; [intros H; now rewrite H|].
  split; [intros H; now rewrite H|].
  split; [intros H; now rewrite H|].
  split; [|intros H; now rewrite H].
  intros cols H. rewrite H. split; [reflexivity|]. now rewrite map_map.
Qed.

Lemma constructor_fallbacks_witness :
  let options :=
    {| o_connectionString := Some "postgres://localhost/logs";
       o_maxPool := Some 0%Z; o_ssl := None; o_schema := Some EmptyString;
       o_tableName := Some EmptyString; o_tableColumns := Some [];
       o_timezone := Some EmptyString; o_level := Some EmptyString;
       o_silent := None |} in
  let this := new_transport Sample.K options "postgres://localhost/logs" in
  schema this = "public" /\ tableName this = "winston_logs" /\ level this = "info"
  /\ max (pool this) = 10%Z /\ timezone this = None /\ tableColumns this = []
  /\ tableColumns Sample.transport = DEFAULT_TABLE_COLUMNS Sample.K.
Proof.
  intros options this.
  destruct (constructor_fallbacks Sample.K options "postgres://localhost/logs")
    as (H1 & H2 & H3 & H4 & H5 & H6 & _).
  destruct (constructor_fallbacks Sample.K Sample.options "postgres://localhost/logs")
    as (_ & _ & _ & _ & _ & _ & H7).
  split; [exact (H1 eq_refl)|]. split; [exact (H2 eq_refl)|].
  split; [exact (H3 eq_refl)|]. split; [exact (H4 eq_refl)|].
  split; [exact (H5 eq_refl)|]. split; [exact (proj1 (H6 [] eq_refl))|].
  exact (H7 eq_refl).
Defined.

(** ** Writing, continued *)

(** The whole run of a write that is handed a client. *)
Lemma log_run (this : PostgresTransport) (args : row) (b : Backend) :
  silent this = false -> connect_error b = None ->
  fst (run (log this args) b this)
  = (Fulfilled tt, with_pool this (pool_after (pool this))).
Proof.
  intros Hs Hc. unfold run, log. rewrite Hs.
  unfold bind, catch, pool_connect, client_query. rewrite Hc.
  destruct (execute b (insert_statement this args)) as [e|r];
    unfold client_release; cbn [checked_out]; rewrite existsb_eqb_head; cbn;
    rewrite Nat.eqb_refl; reflexivity.
Qed.

(** X4. When the pool hands out no client, a write on a transport that is
    not silent sends nothing, emits nothing and never invokes its callback:
    the promise [log] returns is rejected with the pool's error, and that
    is all. *)
Theorem log_without_client_never_calls_back
        (this : PostgresTransport) (args : row) (b : Backend) (e : JsError) :
  silent this = false -> connect_error b = Some e ->
  run (log this args) b this = (Rejected (VError e), this, [ConnectFailed e])
  /\ callbacks (snd (run (log this args) b this)) = 0.
Proof.
  intros Hs Hc. unfold run, log. rewrite Hs.
  unfold bind, catch, pool_connect. rewrite Hc. cbn.
  rewrite with_pool_same. split; reflexivity.
Qed.

Lemma log_without_client_never_calls_back_witness :
  callbacks (snd (run (log Sample.transport Sample.record)
                      {| connect_error := Some Sample.boom;
                         execute := fun _ => inr Sample.some_rows;
                         release_again := None |}
                      Sample.transport)) = 0.
Proof.
  apply (log_without_client_never_calls_back
           Sample.transport Sample.record _ Sample.boom); reflexivity.
Defined.

(** X5. When the insert of a write succeeds, the client is given back, the
    "logged" event carries the record as it was passed to [log] (not the
    hydrated columns), and the callback is invoked with [(null, true)], in
    that order. *)
Theorem log_success_emits_record
        (this : PostgresTransport) (args : row) (b : Backend) (r : QueryResult) :
  silent this = false -> connect_error b = None ->
  execute b (insert_statement this args) = inr r ->
  snd (run (log this args) b this) =
  [Connect (next_client (pool this));
   ClientQuery (next_client (pool this)) (insert_statement this args);
   Release (next_client (pool this));
   Emit "logged" (VObj args);
   Callback [VNull; VBool true]].
Proof.
  intros Hs Hc He. rewrite (log_trace this args b Hs), Hc. cbv zeta. now rewrite He.
Qed.

Lemma log_success_emits_record_witness :
  In (Emit "logged" (VObj Sample.record))
     (snd (run (log Sample.transport Sample.record) Sample.healthy Sample.transport)).
Proof.
  rewrite (log_success_emits_record Sample.transport Sample.record Sample.healthy
             Sample.some_rows eq_refl eq_refl eq_refl).
  do 3 right. left. reflexivity.
Defined.

(** X6. A write that is handed a client sends one statement, gives the
    client back once, emits one event and invokes its callback once,
    whether the insert succeeds or fails. *)
Theorem log_does_each_thing_once
        (this : PostgresTransport) (args : row) (b : Backend) :
  silent this = false -> connect_error b = None ->
  acquisitions (snd (run (log this args) b this)) = 1
  /\ statements (snd (run (log this args) b this)) = [insert_statement this args]
  /\ releases (next_client (pool this)) (snd (run (log this args) b this)) = 1
  /\ List.length (filter is_emit (snd (run (log this args) b this))) = 1
  /\ callbacks (snd (run (log this args) b this)) = 1.
Proof.
  intros Hs Hc. rewrite (log_trace this args b Hs), Hc. cbv zeta.
  unfold acquisitions, releases, callbacks.
  destruct (execute b (insert_statement this args)); cbn; rewrite Nat.eqb_refl;
    repeat split; reflexivity.
Qed.

Lemma log_does_each_thing_once_witness :
  callbacks (snd (run (log Sample.transport Sample.record) Sample.failing Sample.transport)) = 1
  /\ releases 0 (snd (run (log Sample.transport Sample.record)
                          Sample.healthy Sample.transport)) = 1.
Proof.
  split.
  - apply (log_does_each_thing_once Sample.transport Sample.record Sample.failing);
      reflexivity.
  - apply (log_does_each_thing_once Sample.transport Sample.record Sample.healthy);
      reflexivity.
Defined.

(** ** Reading, continued *)

(** The completion and the pool of a read that is handed a client. *)
Lemma query_run (this : PostgresTransport) (options : QueryOptions) (b : Backend) :
  connect_error b = None ->
  fst (run (query this options) b this)
  = (match execute b (Select (select_query this options)),
           execute b (Select (count_query this options)),
           release_again b with
     | inr _, inl _, Some e => if truthy_number (opt_limit options)
                               then Rejected (VError e) else Fulfilled tt
     | _, _, _ => Fulfilled tt
     end,
     with_pool this (pool_after (pool this))).
Proof.
  intros Hc.
  destruct (execute b (Select (select_query this options))) as [e|r] eqn:Es;
    destruct (execute b (Select (count_query this options))) as [e'|n] eqn:Ek;
    destruct (release_again b) as [e''|] eqn:Er;
    destruct (opt_limit options) as [limit|] eqn:Ho;
    try destruct (Z.eqb_spec limit 0) as [Hz|Hz];
    unfold run, query, bind, catch, pool_connect, client_query;
    rewrite Hc, Es; unfold client_release; cbn [checked_out];
    rewrite existsb_eqb_head, ?Ho; cbn [if_number truthy_number];
    try (destruct (Z.eqb_spec limit 0); [|contradiction]);
    try (destruct (Z.eqb_spec limit 0); [contradiction|]);
    rewrite ?Ek; cbn; rewrite ?Nat.eqb_refl; cbn;
    rewrite ?released_not_checked_out, ?Er; reflexivity.
Qed.

Lemma filter_fresh (p : Pool) :
  fresh_pool p ->
  filter (fun x => negb (Nat.eqb (next_client p) x)) (checked_out p) = checked_out p.
Proof.
  unfold fresh_pool. generalize (next_client p) as c.
  induction (checked_out p) as [|x l IH]; intros c Hf; [reflexivity|].
  inversion Hf as [|? ? Hx Hl]; subst. cbn [filter].
  destruct (Nat.eqb_spec c x) as [->|_]; [lia|]. cbn [negb]. now rewrite IH.
Qed.

Lemma pool_after_fresh (p : Pool) :
  fresh_pool p ->
  checked_out (pool_after p) = checked_out p /\ fresh_pool (pool_after p).
Proof.
  intros Hf. unfold pool_after, fresh_pool. cbn [checked_out next_client].
  rewrite (filter_fresh p Hf). split; [reflexivity|].
  eapply Forall_impl; [|exact Hf]. cbn. intros c Hc. lia.
Qed.

(** X7. No chain of the transport keeps a client. When the pool hands out
    a client, then after a write, after a read and after the chain of the
    constructor, whatever the database answered, the pool has out exactly
    the clients it had out before. *)
Theorem chains_give_clients_back
        (this : PostgresTransport) (args : row) (options : QueryOptions) (b : Backend) :
  fresh_pool (pool this) -> connect_error b = None ->
  (silent this = false ->
   checked_out (pool (snd (fst (run (log this args) b this)))) = checked_out (pool this))
  /\ checked_out (pool (snd (fst (run (query this options) b this))))
     = checked_out (pool this)
  /\ checked_out (pool (snd (fst (run (create_table this) b this))))
     = checked_out (pool this).
Proof.
  intros Hf Hc. destruct (pool_after_fresh (pool this) Hf) as [Ho _].
  split; [|split].
  - intros Hs. rewrite (log_run this args b Hs Hc). exact Ho.
  - rewrite (query_run this options b Hc). exact Ho.
  - destruct (create_table_run this b Hc) as (p & Hr & Hp).
    rewrite Hr. cbn [fst snd pool with_pool]. rewrite Hp.
    exact (filter_fresh (pool this) Hf).
Qed.

Lemma chains_give_clients_back_witness :
  checked_out (pool (snd (fst (run (log Sample.transport Sample.record)
                                   Sample.failing Sample.transport)))) = []
  /\ checked_out (pool (snd (fst (run (query Sample.transport Sample.page_request)
                                      Sample.failing Sample.transport)))) = [].
Proof.
  destruct (chains_give_clients_back Sample.transport Sample.record Sample.page_request
              Sample.failing (Forall_nil _) eq_refl) as (Hw & Hq & _).
  split; [exact (Hw eq_refl) | exact Hq].
Defined.

(** X8. When the pool hands out no client, the promise of a read is never
    settled: [query] calls neither [resolve] nor [reject], sends nothing,
    and the rejection of [pool.connect()] stays in a chain nobody holds. *)
Theorem query_without_client_never_settles
        (this : PostgresTransport) (options : QueryOptions) (b : Backend) (e : JsError) :
  connect_error b = Some e ->
  run (query this options) b this = (Rejected (VError e), this, [ConnectFailed e])
  /\ settled (snd (run (query this options) b this)) = Pending.
Proof.
  intros Hc. unfold run, query, bind, catch, pool_connect. rewrite Hc. cbn.
  rewrite with_pool_same. split; reflexivity.
Qed.

Lemma query_without_client_never_settles_witness :
  settled (snd (run (query Sample.transport Sample.page_request)
                    {| connect_error := Some Sample.boom;
                       execute := fun _ => inr Sample.some_rows;
                       release_again := None |}
                    Sample.transport)) = Pending.
Proof.
  apply (query_without_client_never_settles Sample.transport Sample.page_request _ Sample.boom).
  reflexivity.
Defined.

(** X9. A paginated read whose two statements succeed resolves to a page
    made of the rows and the row count of the select, the limit of the
    request, the page of the request as given (absent when the request has
    none, though the offset was computed with 0), and as total the [total]
    field of the first row the count statement returned, 0 when it returned
    no row. *)
Theorem paginated_read_builds_page
        (this : PostgresTransport) (options : QueryOptions) (b : Backend)
        (limit : Z) (r n : QueryResult) :
  opt_limit options = Some limit -> limit <> 0%Z ->
  connect_error b = None ->
  execute b (Select (select_query this options)) = inr r ->
  execute b (Select (count_query this options)) = inr n ->
  settled (snd (run (query this options) b this))
  = Resolved (Page {| dto_rows := res_rows r;
                      dto_rowCount := res_rowCount r;
                      dto_limit := limit;
                      dto_page := opt_page options;
                      dto_total := match res_rows n with
                                   | first :: _ => lookup "total" first
                                   | [] => VNum 0
                                   end |}).
Proof.
  intros Hl Hn Hc Hs Hk.
  rewrite (query_paginated_trace this options b limit Hl Hn), Hc. cbv zeta.
  rewrite Hs, Hk. reflexivity.
Qed.

Lemma paginated_read_builds_page_witness :
  settled (snd (run (query Sample.transport
                       {| opt_fields := None; opt_where := None; opt_order := None;
                          opt_limit := Some 5%Z; opt_page := None |})
                    {| connect_error := None;
                       execute := fun s =>
                         match s with
                         | Select q =>
                             match q_select q with
                             | SelectCount _ => inr {| res_rows := []; res_rowCount := 0 |}
                             | SelectFields _ => inr Sample.some_rows
                             end
                         | _ => inl Sample.boom
                         end;
                       release_again := None |}
                    Sample.transport))
  = Resolved (Page {| dto_rows := res_rows Sample.some_rows; dto_rowCount := 2;
                      dto_limit := 5; dto_page := None; dto_total := VNum 0 |}).
Proof.
  apply (paginated_read_builds_page Sample.transport
           {| opt_fields := None; opt_where := None; opt_order := None;
              opt_limit := Some 5%Z; opt_page := None |}
           {| connect_error := None;
              execute := fun s =>
                match s with
                | Select q =>
                    match q_select q with
                    | SelectCount _ => inr {| res_rows := []; res_rowCount := 0 |}
                    | SelectFields _ => inr Sample.some_rows
                    end
                | _ => inl Sample.boom
                end;
              release_again := None |}
           5%Z Sample.some_rows {| res_rows := []; res_rowCount := 0 |});
    first [reflexivity | discriminate].
Defined.

(** X10. When the count statement of a paginated read fails, what the
    caller sees depends on the second [release]: if it throws, as
    node-postgres does, [reject] is never reached and the promise of the
    read is never settled; if it does not, the read is rejected with the
    stack of the count statement's error. In neither case does it
    resolve. *)
Theorem count_failure_settlement
        (this : PostgresTransport) (options : QueryOptions) (b : Backend)
        (limit : Z) (r : QueryResult) (e : JsError) :
  opt_limit options = Some limit -> limit <> 0%Z ->
  connect_error b = None ->
  execute b (Select (select_query this options)) = inr r ->
  execute b (Select (count_query this options)) = inl e ->
  settled (snd (run (query this options) b this))
  = match release_again b with
    | Some _ => Pending
    | None => RejectedWith (VStr (err_stack e))
    end.
Proof.
  intros Hl Hn Hc Hs Hk.
  rewrite (query_paginated_trace this options b limit Hl Hn), Hc. cbv zeta.
  rewrite Hs, Hk. destruct (release_again b); reflexivity.
Qed.

Lemma count_failure_settlement_witness :
  release_again Sample.count_fails = Some Sample.released_twice
  /\ settled (snd (run (query Sample.transport Sample.page_request)
                       Sample.count_fails Sample.transport)) = Pending.
Proof.
  split; [reflexivity|].
  apply (count_failure_settlement Sample.transport Sample.page_request Sample.count_fails
           10%Z Sample.some_rows Sample.boom);
    first [reflexivity | discriminate].
Defined.

(** X11. A read that is handed a client is handed one only, and gives it
    back once on every path but one: when the request is paginated, the
    select succeeds and the count statement fails, it gives it back
    twice. *)
Theorem read_gives_back_once_or_twice
        (this : PostgresTransport) (options : QueryOptions) (b : Backend) :
  connect_error b = None ->
  acquisitions (snd (run (query this options) b this)) = 1
  /\ releases (next_client (pool this)) (snd (run (query this options) b this)) =
     match execute b (Select (select_query this options)),
           execute b (Select (count_query this options)) with
     | inr _, inl _ => if truthy_number (opt_limit options) then 2 else 1
     | _, _ => 1
     end.
Proof.
  intros Hc. unfold acquisitions, releases.
  destruct (truthy_number (opt_limit options)) eqn:Hl.
  - destruct (opt_limit options) as [limit|] eqn:Ho; [|discriminate].
    assert (Hn : limit <> 0%Z) by (intros ->; discriminate).
    rewrite (query_paginated_trace this options b limit Ho Hn), Hc. cbv zeta.
    destruct (execute b (Select (select_query this options)));
      [|destruct (execute b (Select (count_query this options)));
        [destruct (release_again b)|]];
      cbn; rewrite ?Nat.eqb_refl; split; reflexivity.
  - rewrite (query_unpaginated_trace this options b Hl), Hc. cbv zeta.
    destruct (execute b (Select (select_query this options)));
      destruct (execute b (Select (count_query this options)));
      cbn; rewrite ?Nat.eqb_refl; split; reflexivity.
Qed.

Lemma read_gives_back_once_or_twice_witness :
  releases 0 (snd (run (query Sample.transport Sample.plain_request)
                       Sample.failing Sample.transport)) = 1
  /\ releases 0 (snd (run (query Sample.transport Sample.page_request)
                          Sample.healthy Sample.transport)) = 1.
Proof.
  split.
  - apply (read_gives_back_once_or_twice Sample.transport Sample.plain_request Sample.failing).
    reflexivity.
  - apply (read_gives_back_once_or_twice Sample.transport Sample.page_request Sample.healthy).
    reflexivity.
Defined.

(** X12. The statements of a read, in the order sent: none when the pool
    hands out no client; the select alone when the request is not
    paginated or the select fails; the select, then the count statement,
    when the request is paginated and the select succeeded. A count
    statement never goes out before, or without, a successful select. *)
Theorem read_statements
        (this : PostgresTransport) (options : QueryOptions) (b : Backend) :
  statements (snd (run (query this options) b this)) =
  match connect_error b with
  | Some _ => []
  | None =>
      match execute b (Select (select_query this options)) with
      | inl _ => [Select (select_query this options)]
      | inr _ =>
          if truthy_number (opt_limit options)
          then [Select (select_query this options); Select (count_query this options)]
          else [Select (select_query this options)]
      end
  end.
Proof.
  destruct (truthy_number (opt_limit options)) eqn:Hl.
  - destruct (opt_limit options) as [limit|] eqn:Ho; [|discriminate].
    assert (Hn : limit <> 0%Z) by (intros ->; discriminate).
    rewrite (query_paginated_trace this options b limit Ho Hn).
    destruct (connect_error b); [reflexivity|]. cbv zeta.
    destruct (execute b (Select (select_query this options))); [reflexivity|].
    destruct (execute b (Select (count_query this options))); [|reflexivity].
    destruct (release_again b); reflexivity.
  - rewrite (query_unpaginated_trace this options b Hl).
    destruct (connect_error b); [reflexivity|]. cbv zeta.
    destruct (execute b (Select (select_query this options))); reflexivity.
Qed.


(** ** The statements *)

Lemma select_query_where_from (this : PostgresTransport) (options : QueryOptions) :
  q_from (select_query this options) = table this
  /\ q_where (select_query this options) = option_map (map where_node) (opt_where options).
Proof.
  unfold select_query, if_number.
  destruct (opt_limit options) as [limit|]; [destruct (Z.eqb limit 0)|];
    destruct (opt_where options), (opt_order options); split; reflexivity.
Qed.

Lemma count_query_table (this : PostgresTransport) (options : QueryOptions) :
  q_from (count_query this options) = table this.
Proof. unfold count_query. destruct (opt_where options); reflexivity. Qed.

(** X13. Each clause of the select comes from one field of the request
    alone: the projection is [fields] as given (an empty list included), or
    the names of the declared columns in declared order when [fields] is
    absent; the filter is one predicate per [where] clause, in order; the
    ordering one term per [order] pair, in order; and the table is the
    transport's, whatever the pagination. *)
Theorem select_query_parts (this : PostgresTransport) (options : QueryOptions) :
  q_from (select_query this options) = table this
  /\ q_select (select_query this options)
     = SelectFields (match opt_fields options with
                     | Some fs => fs
                     | None => map def_name (tableColumns this)
                     end)
  /\ q_where (select_query this options) = option_map (map where_node) (opt_where options)
  /\ q_order (select_query this options) = option_map (map order_node) (opt_order options).
Proof.
  unfold select_query, if_number.
  destruct (opt_limit options) as [limit|]; [destruct (Z.eqb limit 0)|];
    destruct (opt_where options), (opt_order options); repeat split.
Qed.

(** X14. The count statement of a request carries the filter of its select,
    predicate for predicate, on the same table, and nothing else of the
    request: it selects the one aggregate [total], and has no ordering, no
    OFFSET and no LIMIT. *)
Theorem count_query_mirrors_filter (this : PostgresTransport) (options : QueryOptions) :
  q_where (count_query this options) = q_where (select_query this options)
  /\ q_from (count_query this options) = q_from (select_query this options)
  /\ q_select (count_query this options) = SelectCount "total"
  /\ q_order (count_query this options) = None
  /\ q_offset (count_query this options) = None
  /\ q_limit (count_query this options) = None.
Proof.
  destruct (select_query_where_from this options) as (Hf & Hw).
  rewrite Hw, Hf. unfold count_query.
  destruct (opt_where options); repeat split.
Qed.

Lemma lower_char_not_upper (c : ascii) : is_upper (lower_char c) = false.
Proof. destruct c as [[|] [|] [|] [|] [|] [|] [|] [|]]; reflexivity. Qed.

Lemma lower_char_idempotent (c : ascii) : lower_char (lower_char c) = lower_char c.
Proof. destruct c as [[|] [|] [|] [|] [|] [|] [|] [|]]; reflexivity. Qed.

Lemma lower_char_keeps (c : ascii) : is_upper c = false -> lower_char c = c.
Proof.
  destruct c as [[|] [|] [|] [|] [|] [|] [|] [|]]; cbn; intros H;
    first [reflexivity | discriminate H].
Qed.

(** X15. The direction of an ordering is used in lower case: the method
    called on the column has no upper-case letter, a direction already in
    lower case is used as it is, and spellings of a direction that differ
    only in case give the same term. *)
Theorem order_direction_lower_case (key direction : string) :
  (exists method, order_node (key, direction) = ColumnCall key method []
                  /\ no_upper method = true)
  /\ (no_upper direction = true -> order_node (key, direction) = ColumnCall key direction [])
  /\ (forall other, toLowerCase other = toLowerCase direction ->
                    order_node (key, other) = order_node (key, direction)).
Proof.
  unfold order_node. cbn [fst snd]. split; [|split].
  - eexists. split; [reflexivity|].
    induction direction as [|c s IH]; [reflexivity|].
    cbn. now rewrite lower_char_not_upper, IH.
  - intros Hn. f_equal.
    induction direction as [|c s IH]; [reflexivity|].
    cbn in Hn |- *. apply andb_prop in Hn as [Hc Hs].
    rewrite (lower_char_keeps c), (IH Hs); [reflexivity|].
    now destruct (is_upper c).
  - intros other Ho. now rewrite Ho.
Qed.

Lemma order_direction_lower_case_witness :
  order_node ("createdAt", "desc") = ColumnCall "createdAt" "desc" []
  /\ order_node ("createdAt", "Desc") = order_node ("createdAt", "DESC").
Proof.
  split.
  - apply (order_direction_lower_case "createdAt" "desc"). reflexivity.
  - apply (order_direction_lower_case "createdAt" "DESC"). reflexivity.
Defined.

Lemma statements_app (t1 t2 : list Event) :
  statements (t1 ++ t2)%list = (statements t1 ++ statements t2)%list.
Proof.
  induction t1 as [|ev t1 IH]; [reflexivity|].
  destruct ev; cbn; now rewrite IH.
Qed.

(** X16. Every statement the transport sends is about its own table, the
    one defined at construction from the schema, the table name and the
    columns: the create-table statement, the insert of a write, the select
    and the count statement of a read, on every run. *)
Theorem statements_target_the_table
        (this : PostgresTransport) (args : row) (options : QueryOptions) (b : Backend) :
  Forall (fun s => statement_table s = table this)
         (statements (snd (run (create_table this) b this)))
  /\ Forall (fun s => statement_table s = table this)
            (statements (snd (run (log this args) b this)))
  /\ Forall (fun s => statement_table s = table this)
            (statements (snd (run (query this options) b this))).
Proof.
  destruct (select_query_where_from this options) as (Hf & _).
  pose proof (count_query_table this options) as Hk.
  split; [|split].
  - destruct (connect_error b) as [e|] eqn:Hc.
    + unfold run, create_table, bind, catch, pool_connect. rewrite Hc. constructor.
    + destruct (create_table_run this b Hc) as (p & Hr & _). rewrite Hr.
      repeat constructor.
  - destruct (silent this) eqn:Hs.
    + unfold run, log. rewrite Hs. constructor.
    + rewrite (log_trace this args b Hs).
      destruct (connect_error b); [constructor|]. cbv zeta.
      destruct (execute b _); repeat constructor.
  - destruct (truthy_number (opt_limit options)) eqn:Hl.
    + destruct (opt_limit options) as [limit|] eqn:Ho; [|discriminate].
      assert (Hn : limit <> 0%Z) by (intros ->; discriminate).
      rewrite (query_paginated_trace this options b limit Ho Hn).
      destruct (connect_error b); [constructor|]. cbv zeta.
      destruct (execute b (Select (select_query this options)));
        [repeat constructor; exact Hf|].
      destruct (execute b (Select (count_query this options)));
        [destruct (release_again b)|];
        repeat constructor; first [exact Hf | exact Hk].
    + rewrite (query_unpaginated_trace this options b Hl).
      destruct (connect_error b); [constructor|]. cbv zeta.
      destruct (execute b _); repeat constructor; exact Hf.
Qed.

(** ** Hydration, continued *)

(** X17. A column whose type is none of JSON, TIMESTAMP and TIMESTAMPTZ
    (compared as written, so [timestamp] in lower case is such a type) gets
    the value the record holds for it, unless that value is [undefined] or
    [null], in which case it gets the default of the column. Values that
    are merely falsy, [false], [0] and the empty string, are kept. *)
Theorem plain_column_value_or_default
        (this : PostgresTransport) (args : row) (column : Column) :
  special_type (dataType column) = false ->
  (lookup (name column) args <> VUndefined -> lookup (name column) args <> VNull ->
   bound (hydrateColumn this args column) = Some (lookup (name column) args))
  /\ (lookup (name column) args = VUndefined \/ lookup (name column) args = VNull ->
      bound (hydrateColumn this args column) = Some (defaultValue column)).
Proof.
  unfold special_type. intros Hp. apply orb_false_elim in Hp as [Hj Ht].
  unfold hydrateColumn. rewrite Hj, Ht. cbn [bound Column_value]. split.
  - intros Hu Hn. destruct (lookup (name column) args); first [reflexivity | contradiction].
  - intros [-> | ->]; reflexivity.
Qed.

Lemma plain_column_value_or_default_witness :
  bound (hydrateColumn Sample.transport [("count", VNum 0)]
           {| name := "count"; dataType := "INTEGER"; defaultValue := VNum 7; bound := None |})
  = Some (VNum 0)
  /\ bound (hydrateColumn Sample.transport [("count", VNull)]
              {| name := "count"; dataType := "timestamp"; defaultValue := VNum 7;
                 bound := None |})
     = Some (VNum 7).
Proof.
  split.
  - apply (plain_column_value_or_default Sample.transport [("count", VNum 0)]
             {| name := "count"; dataType := "INTEGER"; defaultValue := VNum 7;
                bound := None |} eq_refl); discriminate.
  - apply (plain_column_value_or_default Sample.transport [("count", VNull)]
             {| name := "count"; dataType := "timestamp"; defaultValue := VNum 7;
                bound := None |} eq_refl). right. reflexivity.
Defined.

(** X18. Hydration reads of a record the fields named by the declared
    columns and nothing else: two records that agree on those fields are
    hydrated to the same columns, and so give the same insert. *)
Theorem hydration_reads_declared_fields_only
        (this : PostgresTransport) (args args' : row) :
  (forall c, In c (columns (table this)) -> lookup (name c) args = lookup (name c) args') ->
  hydrateColumns this args (columns (table this))
  = hydrateColumns this args' (columns (table this))
  /\ insert_statement this args = insert_statement this args'.
Proof.
  intros Hagree.
  assert (Hh : hydrateColumns this args (columns (table this))
               = hydrateColumns this args' (columns (table this))).
  { unfold hydrateColumns. apply map_ext_in. intros c Hc.
    unfold hydrateColumn. now rewrite (Hagree c Hc). }
  split; [exact Hh|]. unfold insert_statement. now rewrite Hh.
Qed.

Lemma hydration_reads_declared_fields_only_witness :
  insert_statement Sample.transport [("level", VStr "info")]
  = insert_statement Sample.transport
      [("pid", VNum 42); ("level", VStr "info"); ("host", VStr "a")].
Proof.
  apply (hydration_reads_declared_fields_only Sample.transport).
  intros c Hc. cbn in Hc.
  repeat (destruct Hc as [<- | Hc]; [reflexivity|]). contradiction.
Defined.



(** ** JSON columns, continued *)







